(** * Vault tree manager: renderer, statistics, activity log and debounced watch

    A shallow embedding of [vault_tree_manager.py], of the parts of
    [management_log.py] it calls and of the constants of [config.py].

    Python [str] values are Rocq strings holding the UTF-8 bytes of the text:
    byte-wise prefix, suffix, substring and ordering tests agree with the
    code-point-wise tests of Python on well-formed text.  A [pathlib.Path] is
    the list of its [parts].  The time of [time.time()] is a rational. *)

From Stdlib Require Import List Bool Arith Lia String Ascii.
From Stdlib Require Import ZArith QArith Lqa.
From Stdlib Require Import Sorting.Sorted Sorting.Permutation.
From Stdlib Require Import DecimalString.
Import ListNotations.

Local Open Scope list_scope.
Local Open Scope string_scope.

(** ** Python string operations *)

Module Str.

(** [s.startswith(p)] *)
Definition startswith (s p : string) : bool := String.prefix p s.

(** [s[n:]] *)
Fixpoint drop (n : nat) (s : string) : string :=
  match n, s with
  | O, _ => s
  | S n', String _ s' => drop n' s'
  | S _, EmptyString => EmptyString
  end.

(** [s.endswith(p)] *)
Definition endswith (s p : string) : bool :=
  (String.length p <=? String.length s)%nat
  && String.eqb (drop (String.length s - String.length p) s) p.

(** [p in s], for strings *)
Fixpoint contains (p s : string) : bool :=
  String.prefix p s
  || match s with
     | EmptyString => false
     | String _ s' => contains p s'
     end.

(** [s.rfind(".")], as the remainder of [s] from its last dot on, together
    with the position of that dot *)
Fixpoint rfind_dot (s : string) : option (nat * string) :=
  match s with
  | EmptyString => None
  | String c s' =>
      match rfind_dot s' with
      | Some (i, r) => Some (S i, r)
      | None => if Ascii.eqb c "." then Some (O, s) else None
      end
  end.


(** [str(n)] for a natural number *)
Definition of_nat (n : nat) : string := NilZero.string_of_uint (Nat.to_uint n).

End Str.

(** ** Paths *)

Definition path := list string.

(** [p / name] *)
Definition joinpath (p : path) (name : string) : path := (p ++ [name])%list.

(** [p.name] *)
Definition name (p : path) : string := last p "".

(** [p.suffix], after CPython's pathlib: the text from the last dot of the
    name on, unless that dot is the first or the last character. *)
Definition suffix (p : path) : string :=
  match Str.rfind_dot (name p) with
  | Some (i, r) =>
      if ((0 <? i) && (i <? String.length (name p) - 1))%nat then r else ""
  | None => ""
  end.

(** [str(p)] of a POSIX path *)
Definition path_str (p : path) : string :=
  match p with
  | "/" :: rest => "/" ++ String.concat "/" rest
  | _ => String.concat "/" p
  end.

(** ** Configuration ([config.py]) *)

Definition SUPPORTED_EXTENSIONS : list string := [".md"; ".txt"].

Definition has_supported_extension (s : string) : bool :=
  existsb (fun ext => Str.endswith s ext) SUPPORTED_EXTENSIONS.


(** ** Exceptions *)

(** The subclasses of [Exception] that the modelled calls raise, each with the
    file name it carries. *)
Inductive exn :=
| PermissionError (filename : string)
| FileNotFoundError (filename : string)
| NotADirectoryError (filename : string)
| JSONDecodeError (msg : string)
| TypeError (msg : string).

(** [str(e)] *)
Definition str_exn (e : exn) : string :=
  match e with
  | PermissionError f => "[Errno 13] Permission denied: '" ++ f ++ "'"
  | FileNotFoundError f => "[Errno 2] No such file or directory: '" ++ f ++ "'"
  | NotADirectoryError f => "[Errno 20] Not a directory: '" ++ f ++ "'"
  | JSONDecodeError m => m
  | TypeError m => m
  end.

Inductive result (A : Type) :=
| Ok (a : A)
| Raise (e : exn).
Arguments Ok {A} a.
Arguments Raise {A} e.

(** ** The file system under the vault *)

(** A directory holds named entries.  [Denied] is a directory whose listing
    raises [PermissionError]; [Special] is an entry that is neither a
    directory nor a regular file. *)
#[local] Set Warnings "-register-all".
Inductive tree :=
| File
| Special
| Dir (children : list (string * tree))
| Denied.

(** [content] is what sits at the path [mount]; nothing else exists. *)
Record filesystem := { mount : path; content : tree }.

Fixpoint assoc (n : string) (children : list (string * tree)) : option tree :=
  match children with
  | [] => None
  | (m, t) :: rest => if String.eqb n m then Some t else assoc n rest
  end.

Fixpoint descend (t : tree) (rel : list string) : option tree :=
  match rel with
  | [] => Some t
  | n :: rest =>
      match t with
      | Dir children =>
          match assoc n children with
          | Some c => descend c rest
          | None => None
          end
      | _ => None
      end
  end.

Fixpoint strip_prefix (base p : path) : option (list string) :=
  match base, p with
  | [], _ => Some p
  | b :: base', x :: p' => if String.eqb b x then strip_prefix base' p' else None
  | _ :: _, [] => None
  end.

Definition lookup (fs : filesystem) (p : path) : option tree :=
  match strip_prefix (mount fs) p with
  | Some rel => descend (content fs) rel
  | None => None
  end.

(** [p.is_dir()] and [p.is_file()] *)
Definition is_dir (fs : filesystem) (p : path) : bool :=
  match lookup fs p with
  | Some (Dir _) | Some Denied => true
  | _ => false
  end.

Definition is_file (fs : filesystem) (p : path) : bool :=
  match lookup fs p with
  | Some File => true
  | _ => false
  end.

(** [directory.iterdir()], consumed by a [for] loop: the listing is read when
    the loop starts, and that is where it raises. *)
Definition iterdir (fs : filesystem) (directory : path) : result (list path) :=
  match lookup fs directory with
  | Some (Dir children) => Ok (map (fun nc => joinpath directory (fst nc)) children)
  | Some Denied => Raise (PermissionError (path_str directory))
  | Some File | Some Special => Raise (NotADirectoryError (path_str directory))
  | None => Raise (FileNotFoundError (path_str directory))
  end.

Definition is_dir_tree (t : tree) : bool :=
  match t with
  | Dir _ | Denied => true
  | _ => false
  end.

(** The directories below [t], itself first, in the order pathlib's recursive
    selector visits them. *)
Fixpoint iterate_directories (t : tree) (p : path) : list (path * tree) :=
  (p, t) ::
  match t with
  | Dir children =>
      flat_map (fun nc =>
                  if is_dir_tree (snd nc)
                  then iterate_directories (snd nc) (joinpath p (fst nc))
                  else [])
               children
  | _ => []
  end.

(** The entries of one visited directory; pathlib's selectors skip a
    directory they are not permitted to list. *)
Definition select_children (pt : path * tree) : list path :=
  match snd pt with
  | Dir children => map (fun nc => joinpath (fst pt) (fst nc)) children
  | _ => []
  end.

(** [directory.rglob("*")]: every entry below [directory].  Listing a missing
    start directory, or one that is no directory, raises at once. *)
Definition rglob (fs : filesystem) (directory : path) : result (list path) :=
  match lookup fs directory with
  | Some (Dir children) =>
      Ok (flat_map select_children (iterate_directories (Dir children) directory))
  | Some Denied => Ok []
  | Some File | Some Special => Raise (NotADirectoryError (path_str directory))
  | None => Raise (FileNotFoundError (path_str directory))
  end.

Fixpoint height (t : tree) : nat :=
  match t with
  | Dir children => S (fold_right (fun nc h => Nat.max (height (snd nc)) h) O children)
  | _ => O
  end.

(** ** Ordering of paths and [sorted] *)

(** Paths compare as their lists of parts, parts as strings. *)
Fixpoint path_compare (p q : path) : comparison :=
  match p, q with
  | [], [] => Eq
  | [], _ :: _ => Lt
  | _ :: _, [] => Gt
  | a :: p', b :: q' =>
      match String.compare a b with
      | Eq => path_compare p' q'
      | c => c
      end
  end.

Definition path_leb (p q : path) : bool :=
  match path_compare p q with
  | Gt => false
  | _ => true
  end.

Fixpoint insert (x : path) (l : list path) : list path :=
  match l with
  | [] => [x]
  | y :: l' => if path_leb x y then x :: l else y :: insert x l'
  end.

(** [sorted(l)] for a list of paths *)
Fixpoint sorted (l : list path) : list path :=
  match l with
  | [] => []
  | x :: l' => insert x (sorted l')
  end.

(** [enumerate(l)] *)
Definition enumerate {A : Type} (l : list A) : list (nat * A) :=
  combine (seq 0 (List.length l)) l.

(** ** [VaultTreeManager]: ignore rule, renderer and statistics *)

Definition ignore_patterns : list string :=
  [".obsidian"; ".git"; ".DS_Store"; "__pycache__"; "node_modules"; ".vscode"; ".idea"].

(** The test of [_should_ignore] on one part of a path. *)
Definition part_ignored (part : string) : bool :=
  existsb (String.eqb part) ignore_patterns || Str.startswith part ".".

Definition _should_ignore (p : path) : bool := existsb part_ignored p.

Definition PERMISSION_MARKER : string := "├── ❌ 접근 권한 없음 / Permission Denied".

Definition error_marker (e : exn) : string :=
  "├── ⚠️ 오류: " ++ str_exn e ++ " / Error: " ++ str_exn e.

(** The three lists the renderer builds from a listing. *)
Definition tree_items (listed : list path) : list path :=
  filter (fun item => negb (_should_ignore item)) listed.

Definition tree_directories (fs : filesystem) (listed : list path) : list path :=
  sorted (filter (is_dir fs) (tree_items listed)).

Definition tree_files (fs : filesystem) (listed : list path) : list path :=
  sorted (filter (fun item => is_file fs item && has_supported_extension (name item))
                 (tree_items listed)).

Definition all_items (fs : filesystem) (listed : list path) : list path :=
  (tree_directories fs listed ++ tree_files fs listed)%list.

(** The text after the branch marker on the line of [item]. *)
Definition item_name (fs : filesystem) (item : path) : string :=
  if is_dir fs item then "📁" ++ " **" ++ name item ++ "**"
  else if String.eqb (suffix item) ".md" then "📝" ++ " " ++ name item
  else "📄" ++ " " ++ name item.

Definition current_prefix (is_last_item : bool) : string :=
  if is_last_item then "└── " else "├── ".

Definition next_prefix (prefix : string) (is_last_item : bool) : string :=
  if is_last_item then prefix ++ "    " else prefix ++ "│   ".

(** One turn of the loop over [all_items]: the line of the item, followed by
    the lines of its subtree when it is a directory.  [recurse] is the
    renderer itself. *)
Definition render_item (fs : filesystem)
    (recurse : path -> string -> bool -> list string)
    (prefix : string) (n : nat) (entry : nat * path) : list string :=
  let (i, item) := entry in
  let is_last_item := Nat.eqb i (n - 1) in
  (prefix ++ current_prefix is_last_item ++ item_name fs item)
  :: (if is_dir fs item
      then recurse item (next_prefix prefix is_last_item) is_last_item
      else []).

(** [_generate_tree_structure].  [fuel] bounds the depth of the recursion;
    [render_fuel] below is enough for every directory of the file system. *)
Fixpoint _generate_tree_structure (fs : filesystem) (fuel : nat)
    (directory : path) (prefix : string) (is_last : bool) : list string :=
  match fuel with
  | O => []
  | S fuel' =>
      match iterdir fs directory with
      | Ok listed =>
          flat_map (render_item fs (_generate_tree_structure fs fuel') prefix
                                (List.length (all_items fs listed)))
                   (enumerate (all_items fs listed))
      | Raise (PermissionError _) => [prefix ++ PERMISSION_MARKER]
      | Raise e => [prefix ++ error_marker e]
      end
  end.

Definition render_fuel (fs : filesystem) : nat := S (height (content fs)).

(** The [stats] dictionary of [_count_items]. *)
Record stats := {
  total_folders : nat;
  total_files : nat;
  md_files : nat;
  other_files : nat
}.

Definition stats_zero : stats :=
  {| total_folders := 0; total_files := 0; md_files := 0; other_files := 0 |}.

(** One turn of the loop of [_count_items]. *)
Definition count_item (fs : filesystem) (st : stats) (item : path) : stats :=
  if _should_ignore item then st
  else if is_dir fs item then
    {| total_folders := S (total_folders st); total_files := total_files st;
       md_files := md_files st; other_files := other_files st |}
  else if is_file fs item then
    if String.eqb (suffix item) ".md" then
      {| total_folders := total_folders st; total_files := S (total_files st);
         md_files := S (md_files st); other_files := other_files st |}
    else if has_supported_extension (name item) then
      {| total_folders := total_folders st; total_files := S (total_files st);
         md_files := md_files st; other_files := S (other_files st) |}
    else
      {| total_folders := total_folders st; total_files := S (total_files st);
         md_files := md_files st; other_files := other_files st |}
  else st.

(** [_count_items]: an exception of the walk ends the loop and is dropped. *)
Definition _count_items (fs : filesystem) (directory : path) : stats :=
  match rglob fs directory with
  | Ok items => fold_left (count_item fs) items stats_zero
  | Raise _ => stats_zero
  end.


(** ** The state of the program and of its surroundings *)

(** A file of the host: what it holds, if it exists, and whether it can be
    opened for reading and for writing. *)
Record file (A : Type) := {
  data : option A;
  readable : bool;
  writable : bool
}.
Arguments data {A} f.
Arguments readable {A} f.
Arguments writable {A} f.

(** [path.exists()] *)
Definition file_exists {A : Type} (f : file A) : bool :=
  match data f with
  | Some _ => true
  | None => false
  end.

(** [LogEntry] of [management_log.py]; [summary] keeps the insertion order of
    the dictionary, its values printed. *)
Record LogEntry := {
  timestamp : string;
  command : string;
  status : string;
  summary : list (string * string);
  duration : option Q;
  error : option string
}.

(** What [json.load] finds in the JSON log: the list of entries, or text that
    does not parse. *)
Inductive json_doc :=
| JsonLogs (logs : list LogEntry)
| JsonGarbage.

(** The dictionary of [_calculate_statistics]; the two floats are kept as
    rationals. *)
Record statistics := {
  total_executions : nat;
  last_execution : string;
  success_rate : Q;
  avg_duration : Q;
  command_counts : list (string * nat)
}.

(** The markdown log, kept as the data its text is printed from: the
    statistics section, when the text has one, and the entries appended. *)
Record markdown_doc := {
  md_statistics : option statistics;
  md_history : list LogEntry
}.

(** [VaultTreeEventHandler] *)
Record handler := {
  last_update : Q;
  update_delay : Q
}.

(** A watchdog [Observer] with the handler scheduled on it. *)
Record Observer := {
  obs_id : nat;
  obs_alive : bool;
  obs_handler : handler
}.

Record state := {
  (* the surroundings *)
  vault_fs : filesystem;
  tree_file : file string;
  json_log : file json_doc;
  markdown_log : file markdown_doc;
  stdout : list string;
  clock : Q;
  clock_text : string;
  timers : list Q;
  observers_created : nat;
  (* the fields of the VaultTreeManager object *)
  vault_path : path;
  observer : option Observer;
  is_watching : bool
}.

Definition set_tree_file (v : file string) (s : state) : state :=
  {| vault_fs := vault_fs s; tree_file := v; json_log := json_log s;
     markdown_log := markdown_log s; stdout := stdout s; clock := clock s;
     clock_text := clock_text s; timers := timers s;
     observers_created := observers_created s; vault_path := vault_path s;
     observer := observer s; is_watching := is_watching s |}.

Definition set_json_log (v : file json_doc) (s : state) : state :=
  {| vault_fs := vault_fs s; tree_file := tree_file s; json_log := v;
     markdown_log := markdown_log s; stdout := stdout s; clock := clock s;
     clock_text := clock_text s; timers := timers s;
     observers_created := observers_created s; vault_path := vault_path s;
     observer := observer s; is_watching := is_watching s |}.

Definition set_markdown_log (v : file markdown_doc) (s : state) : state :=
  {| vault_fs := vault_fs s; tree_file := tree_file s; json_log := json_log s;
     markdown_log := v; stdout := stdout s; clock := clock s;
     clock_text := clock_text s; timers := timers s;
     observers_created := observers_created s; vault_path := vault_path s;
     observer := observer s; is_watching := is_watching s |}.

Definition set_stdout (v : list string) (s : state) : state :=
  {| vault_fs := vault_fs s; tree_file := tree_file s; json_log := json_log s;
     markdown_log := markdown_log s; stdout := v; clock := clock s;
     clock_text := clock_text s; timers := timers s;
     observers_created := observers_created s; vault_path := vault_path s;
     observer := observer s; is_watching := is_watching s |}.

Definition set_timers (v : list Q) (s : state) : state :=
  {| vault_fs := vault_fs s; tree_file := tree_file s; json_log := json_log s;
     markdown_log := markdown_log s; stdout := stdout s; clock := clock s;
     clock_text := clock_text s; timers := v;
     observers_created := observers_created s; vault_path := vault_path s;
     observer := observer s; is_watching := is_watching s |}.

Definition set_observers_created (v : nat) (s : state) : state :=
  {| vault_fs := vault_fs s; tree_file := tree_file s; json_log := json_log s;
     markdown_log := markdown_log s; stdout := stdout s; clock := clock s;
     clock_text := clock_text s; timers := timers s; observers_created := v;
     vault_path := vault_path s; observer := observer s;
     is_watching := is_watching s |}.

Definition set_observer (v : option Observer) (s : state) : state :=
  {| vault_fs := vault_fs s; tree_file := tree_file s; json_log := json_log s;
     markdown_log := markdown_log s; stdout := stdout s; clock := clock s;
     clock_text := clock_text s; timers := timers s;
     observers_created := observers_created s; vault_path := vault_path s;
     observer := v; is_watching := is_watching s |}.

Definition set_is_watching (v : bool) (s : state) : state :=
  {| vault_fs := vault_fs s; tree_file := tree_file s; json_log := json_log s;
     markdown_log := markdown_log s; stdout := stdout s; clock := clock s;
     clock_text := clock_text s; timers := timers s;
     observers_created := observers_created s; vault_path := vault_path s;
     observer := observer s; is_watching := v |}.

Definition set_clock (v : Q) (s : state) : state :=
  {| vault_fs := vault_fs s; tree_file := tree_file s; json_log := json_log s;
     markdown_log := markdown_log s; stdout := stdout s; clock := v;
     clock_text := clock_text s; timers := timers s;
     observers_created := observers_created s; vault_path := vault_path s;
     observer := observer s; is_watching := is_watching s |}.

(** ** A monad of state and exceptions *)

Definition M (A : Type) : Type := state -> state * result A.

Definition ret {A : Type} (a : A) : M A := fun s => (s, Ok a).

Definition bind {A B : Type} (m : M A) (k : A -> M B) : M B :=
  fun s =>
    match m s with
    | (s', Ok a) => k a s'
    | (s', Raise e) => (s', Raise e)
    end.

Definition raise {A : Type} (e : exn) : M A := fun s => (s, Raise e).

(** [try: body  except Exception as e: handle e] *)
Definition try_except {A : Type} (body : M A) (handle : exn -> M A) : M A :=
  fun s =>
    match body s with
    | (s', Ok a) => (s', Ok a)
    | (s', Raise e) => handle e s'
    end.

Definition get {A : Type} (f : state -> A) : M A := fun s => (s, Ok (f s)).

Definition modify (f : state -> state) : M unit := fun s => (f s, Ok tt).

Notation "x <- m ;; k" := (bind m (fun x => k))
  (at level 61, m at next level, right associativity).
Notation "m ;; k" := (bind m (fun _ => k))
  (at level 61, right associativity).

Definition print (line : string) : M unit :=
  modify (fun s => set_stdout (stdout s ++ [line])%list s).

(** ** [ManagementLogger] *)

Definition JSON_LOG : string := "management_logs/management_activities.json".
Definition MARKDOWN_LOG : string := "management_logs/obsidian_management_history.md".

(** [open(self.json_log, 'r')] followed by [json.load] *)
Definition load_json_log : M (list LogEntry) :=
  fun s =>
    match data (json_log s) with
    | None => (s, Raise (FileNotFoundError JSON_LOG))
    | Some doc =>
        if readable (json_log s) then
          match doc with
          | JsonLogs logs => (s, Ok logs)
          | JsonGarbage =>
              (s, Raise (JSONDecodeError "Expecting value: line 1 column 1 (char 0)"))
          end
        else (s, Raise (PermissionError JSON_LOG))
    end.

(** [open(self.json_log, 'w')] followed by [json.dump] *)
Definition dump_json_log (logs : list LogEntry) : M unit :=
  fun s =>
    if writable (json_log s) then
      (set_json_log {| data := Some (JsonLogs logs);
                       readable := readable (json_log s);
                       writable := true |} s, Ok tt)
    else (s, Raise (PermissionError JSON_LOG)).

(** [logs[-100:]] guarded by [len(logs) > 100] *)
Definition keep_last_100 (logs : list LogEntry) : list LogEntry :=
  if (100 <? List.length logs)%nat then skipn (List.length logs - 100) logs else logs.

Definition _append_json_log (log_entry : LogEntry) : M unit :=
  present <- get (fun s => file_exists (json_log s)) ;;
  logs <- (if present then try_except load_json_log (fun _ => ret []) else ret []) ;;
  dump_json_log (keep_last_100 (logs ++ [log_entry])%list).

(** [open(self.markdown_log, 'a')] followed by [write]; a file that was not
    there is created, without a statistics section. *)
Definition append_markdown_log (log_entry : LogEntry) : M unit :=
  fun s =>
    if writable (markdown_log s) then
      let doc := match data (markdown_log s) with
                 | Some d => {| md_statistics := md_statistics d;
                                md_history := (md_history d ++ [log_entry])%list |}
                 | None => {| md_statistics := None; md_history := [log_entry] |}
                 end in
      (set_markdown_log {| data := Some doc;
                           readable := readable (markdown_log s);
                           writable := true |} s, Ok tt)
    else (s, Raise (PermissionError MARKDOWN_LOG)).

(** [_append_markdown_log]: formatting the duration with [:.2f] raises when
    there is none. *)
Definition _append_markdown_log (log_entry : LogEntry) : M unit :=
  match duration log_entry with
  | None => raise (TypeError "unsupported format string passed to NoneType.__format__")
  | Some _ => append_markdown_log log_entry
  end.

Definition statistics_zero : statistics :=
  {| total_executions := 0; last_execution := "-"; success_rate := 0;
     avg_duration := 0; command_counts := [] |}.

Definition Qnat (n : nat) : Q := inject_Z (Z.of_nat n).

Fixpoint count_command (cmd : string) (counts : list (string * nat))
  : list (string * nat) :=
  match counts with
  | [] => [(cmd, 1%nat)]
  | (c, n) :: rest =>
      if String.eqb c cmd then (c, S n) :: rest else (c, n) :: count_command cmd rest
  end.

Fixpoint durations_of (logs : list LogEntry) : list Q :=
  match logs with
  | [] => []
  | l :: rest =>
      match duration l with
      | Some d => d :: durations_of rest
      | None => durations_of rest
      end
  end.

(** The statistics of a non-empty list of entries. *)
Definition statistics_of (logs : list LogEntry) : statistics :=
  let success_count :=
    List.length (filter (fun l => String.eqb (status l) "success") logs) in
  let durations := durations_of logs in
  {| total_executions := List.length logs;
     last_execution := last (map timestamp logs) "-";
     success_rate := Qnat success_count / Qnat (List.length logs) * 100;
     avg_duration :=
       match durations with
       | [] => 0
       | _ => fold_right Qplus 0 durations / Qnat (List.length durations)
       end;
     command_counts :=
       fold_left (fun counts l => count_command (command l) counts) logs [] |}.

Definition _calculate_statistics : M statistics :=
  present <- get (fun s => file_exists (json_log s)) ;;
  if present then
    try_except
      (logs <- load_json_log ;;
       match logs with
       | [] => ret statistics_zero
       | _ => ret (statistics_of logs)
       end)
      (fun e => print ("통계 계산 중 오류: " ++ str_exn e) ;; ret statistics_zero)
  else ret statistics_zero.

(** [open(self.markdown_log, 'r')] followed by [read] *)
Definition read_markdown_log : M markdown_doc :=
  fun s =>
    match data (markdown_log s) with
    | None => (s, Raise (FileNotFoundError MARKDOWN_LOG))
    | Some doc =>
        if readable (markdown_log s) then (s, Ok doc)
        else (s, Raise (PermissionError MARKDOWN_LOG))
    end.

(** [open(self.markdown_log, 'w')] followed by [write] *)
Definition write_markdown_log (doc : markdown_doc) : M unit :=
  fun s =>
    if writable (markdown_log s) then
      (set_markdown_log {| data := Some doc;
                           readable := readable (markdown_log s);
                           writable := true |} s, Ok tt)
    else (s, Raise (PermissionError MARKDOWN_LOG)).

(** [_update_statistics]: the substitution replaces the statistics section
    where the text has one. *)
Definition _update_statistics : M unit :=
  st <- _calculate_statistics ;;
  doc <- read_markdown_log ;;
  write_markdown_log
    {| md_statistics := match md_statistics doc with
                        | Some _ => Some st
                        | None => None
                        end;
       md_history := md_history doc |}.

Definition log_activity (command status : string) (summary : list (string * string))
    (duration : option Q) (error : option string) : M unit :=
  timestamp <- get clock_text ;;
  let log_entry := {| timestamp := timestamp; command := command; status := status;
                      summary := summary; duration := duration; error := error |} in
  _append_json_log log_entry ;;
  _append_markdown_log log_entry ;;
  _update_statistics.

(** ** [VaultTreeManager]: the output file and the watch *)

Definition TREE_FILE : string := "볼트구조.md".

Definition markdown_header (vault_path : path) (current_time : string) (st : stats)
  : string :=
  "# 🌳 옵시디언 볼트 구조
# Obsidian Vault Structure

> **자동 생성된 볼트 트리 구조입니다.**  
> **Auto-generated vault tree structure.**

**📍 볼트 경로**: `" ++ path_str vault_path ++ "`  
**🕒 마지막 업데이트**: " ++ current_time ++ "  
**📊 업데이트 유형**: 자동 감지 / Auto-detected

---

## 📈 볼트 통계 / Vault Statistics

| 항목 / Item | 개수 / Count |
|-------------|--------------|
| 📁 **총 폴더 수** / Total Folders | " ++ Str.of_nat (total_folders st) ++ " |
| 📄 **총 파일 수** / Total Files | " ++ Str.of_nat (total_files st) ++ " |
| 📝 **마크다운 파일** / Markdown Files | " ++ Str.of_nat (md_files st) ++ " |
| 📋 **기타 파일** / Other Files | " ++ Str.of_nat (other_files st) ++ " |

---

## 🌲 폴더 트리 구조 / Folder Tree Structure

```
🏠 " ++ name vault_path ++ "
".

Definition markdown_footer : string :=
  "```

---

## 📝 업데이트 정보 / Update Information

- **자동 감지**: 파일 생성, 삭제, 이동 시 자동 업데이트
- **실시간 모니터링**: 볼트 내 변화를 실시간으로 감지
- **Auto Detection**: Automatically updates when files are created, deleted, or moved
- **Real-time Monitoring**: Detects changes in vault in real-time

---

## 🔧 관리 명령어 / Management Commands

```bash
# 트리 구조 수동 업데이트 / Manual tree update
python main.py update-tree

# 실시간 감지 시작 / Start real-time monitoring
python main.py watch-vault

# 실시간 감지 중지 / Stop real-time monitoring  
python main.py stop-watch
```

> 💡 **팁**: 이 파일은 자동으로 생성되므로 수동으로 편집하지 마세요!  
> **Tip**: This file is auto-generated, please don't edit manually!

---

*Generated by Obsidian Management System* 🤖
".

Definition NEWLINE : string := "
".

Definition generate_tree_markdown : M string :=
  start_time <- get clock ;;
  vault_path <- get vault_path ;;
  try_except
    (fs <- get vault_fs ;;
     let st := _count_items fs vault_path in
     current_time <- get clock_text ;;
     let tree_lines := _generate_tree_structure fs (render_fuel fs) vault_path "" true in
     let markdown_content :=
       fold_left (fun text line => text ++ line ++ NEWLINE) tree_lines
                 (markdown_header vault_path current_time st)
       ++ markdown_footer in
     now <- get clock ;;
     log_activity "generate_tree" "success"
       [("vault_path", path_str vault_path);
        ("total_folders", Str.of_nat (total_folders st));
        ("total_files", Str.of_nat (total_files st));
        ("md_files", Str.of_nat (md_files st));
        ("tree_lines", Str.of_nat (List.length tree_lines))]
       (Some (now - start_time)) None ;;
     ret markdown_content)
    (fun e =>
       now <- get clock ;;
       log_activity "generate_tree" "error"
         [("vault_path", path_str vault_path)]
         (Some (now - start_time)) (Some (str_exn e)) ;;
       raise e).

(** [open(self.tree_file, 'w')] followed by [write] *)
Definition write_tree_file (text : string) : M unit :=
  fun s =>
    if writable (tree_file s) then
      (set_tree_file {| data := Some text;
                        readable := readable (tree_file s);
                        writable := true |} s, Ok tt)
    else (s, Raise (PermissionError TREE_FILE)).

Definition update_tree_structure : M unit :=
  try_except
    (markdown_content <- generate_tree_markdown ;;
     write_tree_file markdown_content ;;
     print ("🌳 트리 구조 업데이트 완료: " ++ TREE_FILE) ;;
     print ("🌳 Tree structure updated: " ++ TREE_FILE))
    (fun e =>
       print ("❌ 트리 구조 업데이트 실패: " ++ str_exn e) ;;
       print ("❌ Tree structure update failed: " ++ str_exn e)).

(** ** [VaultTreeEventHandler] *)

Record event := {
  src_path : string;
  is_directory : bool
}.

(** [VaultTreeEventHandler(tree_manager)], built at time [now] *)
Definition new_handler (now : Q) : handler :=
  {| last_update := now; update_delay := 2 |}.

(** The first test of [on_any_event]: the path is dropped. *)
Definition path_filtered (p : string) : bool :=
  Str.contains "/.obsidian" p || Str.contains "/.git" p.

(** The second test of [on_any_event]: the event is looked at. *)
Definition qualifies (ev : event) : bool :=
  is_directory ev || has_supported_extension (src_path ev).

Definition accepted (ev : event) : bool :=
  negb (path_filtered (src_path ev)) && qualifies ev.

(** [on_any_event], called at time [current_time]: the handler afterwards and,
    when a [threading.Timer] was started, the time at which it fires
    [update_tree_structure]. *)
Definition on_any_event (h : handler) (ev : event) (current_time : Q)
  : handler * option Q :=
  if path_filtered (src_path ev) then (h, None)
  else if qualifies ev then
    if negb (Qle_bool (current_time - last_update h) (update_delay h)) then
      ({| last_update := current_time; update_delay := update_delay h |},
       Some (current_time + update_delay h))
    else (h, None)
  else (h, None).

(** A run of events, each with the time of its delivery: the handler
    afterwards and the timers started, in order. *)
Fixpoint run_events (h : handler) (evs : list (Q * event)) : handler * list Q :=
  match evs with
  | [] => (h, [])
  | (t, ev) :: rest =>
      let (h', started) := on_any_event h ev t in
      let (h'', later) := run_events h' rest in
      (h'', match started with
            | Some fire => fire :: later
            | None => later
            end)
  end.

(** ** Starting and stopping the watch *)

Definition set_alive (alive : bool) (o : Observer) : Observer :=
  {| obs_id := obs_id o; obs_alive := alive; obs_handler := obs_handler o |}.

Definition set_handler (h : handler) (o : Observer) : Observer :=
  {| obs_id := obs_id o; obs_alive := obs_alive o; obs_handler := h |}.

Definition start_watching : M unit :=
  watching <- get is_watching ;;
  if watching then
    print "⚠️ 이미 감시 중입니다." ;;
    print "⚠️ Already watching."
  else
    vault_path <- get vault_path ;;
    try_except
      (update_tree_structure ;;
       (* Observer(), the handler, schedule *)
       id <- get observers_created ;;
       now <- get clock ;;
       modify (set_observers_created (S id)) ;;
       modify (set_observer (Some {| obs_id := id; obs_alive := false;
                                     obs_handler := new_handler now |})) ;;
       (* observer.start() *)
       modify (fun s => set_observer (option_map (set_alive true) (observer s)) s) ;;
       modify (set_is_watching true) ;;
       print ("👁️ 볼트 감시 시작: " ++ path_str vault_path) ;;
       print ("👁️ Started watching vault: " ++ path_str vault_path) ;;
       print "📄 트리 구조 파일: 볼트구조.md" ;;
       print "📄 Tree structure file: 볼트구조.md" ;;
       log_activity "start_watching" "success"
         [("vault_path", path_str vault_path); ("tree_file", TREE_FILE)]
         (Some (1 # 10)) None)
      (fun e =>
         print ("❌ 감시 시작 실패: " ++ str_exn e) ;;
         print ("❌ Failed to start watching: " ++ str_exn e) ;;
         log_activity "start_watching" "error"
           [("vault_path", path_str vault_path)]
           (Some (1 # 10)) (Some (str_exn e))).

Definition stop_watching : M unit :=
  watching <- get is_watching ;;
  obs <- get observer ;;
  match watching, obs with
  | true, Some o =>
      vault_path <- get vault_path ;;
      try_except
        ((* observer.stop(); observer.join() *)
         modify (set_observer (Some (set_alive false o))) ;;
         modify (set_is_watching false) ;;
         print "🛑 볼트 감시 중지됨" ;;
         print "🛑 Stopped watching vault" ;;
         log_activity "stop_watching" "success"
           [("vault_path", path_str vault_path)]
           (Some (1 # 10)) None)
        (fun e =>
           print ("❌ 감시 중지 실패: " ++ str_exn e) ;;
           print ("❌ Failed to stop watching: " ++ str_exn e) ;;
           log_activity "stop_watching" "error"
             [("vault_path", path_str vault_path)]
             (Some (1 # 10)) (Some (str_exn e)))
  | _, _ =>
      print "⚠️ 감시 중이 아닙니다." ;;
      print "⚠️ Not currently watching."
  end.

(** ** The background threads *)

(** The observer thread hands an event to the handler, at the time of the
    clock; a timer the handler starts is added to the pending ones. *)
Definition deliver (ev : event) : M unit :=
  fun s =>
    match observer s with
    | Some o =>
        if obs_alive o then
          let (h', started) := on_any_event (obs_handler o) ev (clock s) in
          (set_timers (timers s ++ match started with
                                   | Some fire => [fire]
                                   | None => []
                                   end)%list
                      (set_observer (Some (set_handler h' o)) s), Ok tt)
        else (s, Ok tt)
    | None => (s, Ok tt)
    end.

Fixpoint remove_first (t : Q) (l : list Q) : list Q :=
  match l with
  | [] => []
  | x :: rest => if Qeq_bool x t then rest else x :: remove_first t rest
  end.

(** A pending timer whose time has come runs [update_tree_structure]; [None]
    when there is no such timer. *)
Definition fire_timer (t : Q) (s : state) : option (state * result unit) :=
  if existsb (fun x => Qeq_bool x t) (timers s) && Qle_bool t (clock s)
  then Some (update_tree_structure (set_timers (remove_first t (timers s)) s))
  else None.

(** Time passes. *)
Definition advance (t : Q) (s : state) : state := set_clock t s.

(** ** States to start from *)

Definition empty_file {A : Type} : file A :=
  {| data := None; readable := true; writable := true |}.

Definition locked_file {A : Type} : file A :=
  {| data := None; readable := true; writable := false |}.

Definition fresh_markdown_log : file markdown_doc :=
  {| data := Some {| md_statistics := Some statistics_zero; md_history := [] |};
     readable := true; writable := true |}.

(** A manager just built on [fs] at [root], nothing logged yet. *)
Definition initial (fs : filesystem) (root : path) : state :=
  {| vault_fs := fs; tree_file := empty_file; json_log := empty_file;
     markdown_log := fresh_markdown_log; stdout := []; clock := 10;
     clock_text := "2024-01-01 00:00:10"; timers := []; observers_created := 0;
     vault_path := root; observer := None; is_watching := false |}.

(** The directory of the statistics scenario, listed in no particular order. *)
Definition scenario : tree :=
  Dir [ ("notes", Dir [("b.md", File); ("a.md", File)]);
        (".obsidian", Dir [("config.json", File)]);
        ("archive", Dir [("old.md", File)]) ].

(** The entries of the scenario in one order: the two notes of [notes], and
    the three directories of the root, [notes] being listed as [listing]. *)
Definition notes_entries : list (string * tree) := [("a.md", File); ("b.md", File)].

Definition root_entries (listing : list (string * tree)) : list (string * tree) :=
  [("notes", Dir listing); ("archive", Dir [("old.md", File)]);
   (".obsidian", Dir [("config.json", File)])].

(** The tree [t] as the vault at [root]. *)
Definition vault_at (root : path) (t : tree) : filesystem :=
  {| mount := root; content := t |}.

Definition scenario_fs (root : path) : filesystem := vault_at root scenario.

(** ** Reading the log back *)

(** [l[start:]] for a Python list and an integer [start]: a negative start
    counts from the end, and a start outside the list is clamped. *)
Definition slice_from {A : Type} (start : Z) (l : list A) : list A :=
  let n := Z.of_nat (List.length l) in
  let first := if (start <? 0)%Z then Z.max 0 (start + n) else Z.min start n in
  skipn (Z.to_nat first) l.

(** [get_recent_activities(limit)] *)
Definition get_recent_activities (limit : Z) : M (list LogEntry) :=
  present <- get (fun s => file_exists (json_log s)) ;;
  if negb present then ret []
  else
    try_except
      (logs <- load_json_log ;;
       match logs with
       | [] => ret []
       | _ => ret (slice_from (- limit) logs)
       end)
      (fun _ => ret []).


(** * The vocabulary of the properties *)

(** ** Events and paths *)

(** A change of a note. *)
Definition note_event : event :=
  {| src_path := "/vault/notes/a.md"; is_directory := false |}.


(** The path [p] of a vault at the empty path, once the vault is at [root]. *)
Definition relocate (root p : path) : path := (root ++ p)%list.

(** ** Orders and lines *)

Definition path_le (p q : path) : Prop := path_leb p q = true.

(** The order on the names of the entries of one directory. *)
Definition name_le (p q : path) : Prop := String.leb (name p) (name q) = true.

(** The entries of [directory]. *)
Definition child_of (directory p : path) : Prop := exists n, p = joinpath directory n.

(** The line of an entry, without the lines of its subtree. *)
Definition item_line (fs : filesystem) (prefix : string) (n : nat)
    (entry : nat * path) : string :=
  prefix ++ current_prefix (Nat.eqb (fst entry) (n - 1)) ++ item_name fs (snd entry).

(** ** Counted entries *)







(** ** Parts of the state *)

(** [keeps proj m]: running [m] does not change the part [proj] of the state,
    whether [m] returns or raises. *)
Definition keeps {A B : Type} (proj : state -> B) (m : M A) : Prop :=
  forall s, proj (fst (m s)) = proj s.

(** Everything but the two log files and the standard output. *)
Definition outside_logs (s : state) :=
  (vault_fs s, tree_file s, clock s, clock_text s, timers s,
   observers_created s, vault_path s, observer s, is_watching s).

(** What [stop_watching] and the operations below it never write: the
    pending timers, the clock and the vault. *)
Definition threads (s : state) := (timers s, clock s, vault_fs s, vault_path s).

(** The flag and the observer, which logging never writes. *)
Definition session (s : state) := (is_watching s, observer s).

(** ** Printed lines *)

Definition update_failed (e : exn) : list string :=
  ["❌ 트리 구조 업데이트 실패: " ++ str_exn e;
   "❌ Tree structure update failed: " ++ str_exn e].

Definition already_watching : list string :=
  ["⚠️ 이미 감시 중입니다."; "⚠️ Already watching."].

Definition regenerated : list string :=
  ["🌳 트리 구조 업데이트 완료: " ++ TREE_FILE;
   "🌳 Tree structure updated: " ++ TREE_FILE].

(** ** Vaults and states of the examples *)

(** A vault whose root cannot be listed. *)
Definition denied_root : state :=
  initial {| mount := ["/"; "vault"]; content := Denied |} ["/"; "vault"].

(** A vault with one subdirectory that cannot be listed, between two that
    can. *)
Definition one_denied : filesystem :=
  {| mount := ["/"; "vault"];
     content := Dir [("a", Dir [("x.md", File)]); ("b", Denied); ("c", Dir [])] |}.


(** The path of a vault kept below a hidden directory. *)
Definition hidden_root : path := ["/"; "home"; "u"; ".vaults"; "second-brain"].

(** The scenario at [/vault], nothing logged yet. *)
Definition healthy : state := initial (scenario_fs ["/"; "vault"]) ["/"; "vault"].

(** A vault whose JSON log cannot be written. *)
Definition locked_sink : state :=
  set_json_log locked_file healthy.

(** A vault whose JSON log holds text that does not parse. *)
Definition garbled_sink : state :=
  set_json_log {| data := Some JsonGarbage; readable := true; writable := true |} healthy.

(** The scenario once [start_watching] has returned. *)
Definition watching : state := fst (start_watching healthy).

(** A watch started at time 10 with an event delivered at time 13: the
    regeneration it schedules is due at time 15. *)
Definition with_pending : state := fst (deliver note_event (advance 13 watching)).

(** ** Log entries *)

(** The entry [log_activity] builds in the state [s]. *)
Definition entry_at (s : state) (command status : string)
    (summary : list (string * string)) (duration : option Q) (error : option string)
  : LogEntry :=
  {| timestamp := clock_text s; command := command; status := status;
     summary := summary; duration := duration; error := error |}.

(** The entries of the JSON log, when it is there, can be read and parses. *)
Definition json_entries (s : state) : option (list LogEntry) :=
  match data (json_log s) with
  | Some (JsonLogs logs) => if readable (json_log s) then Some logs else None
  | _ => None
  end.

(** The line [_calculate_statistics] prints for the exception [e]. *)
Definition statistics_failed (e : exn) : string := "통계 계산 중 오류: " ++ str_exn e.

(** The entries of the JSON log as the readers of the log see them: none when
    the file is missing, cannot be read or does not parse. *)
Definition logged (s : state) : list LogEntry :=
  match json_entries s with
  | Some logs => logs
  | None => []
  end.


(** An entry as the commands log them, and a state whose JSON log holds two
    of them. *)
Definition sample_entry (command status : string) : LogEntry :=
  {| timestamp := "2024-01-01 00:00:00"; command := command; status := status;
     summary := []; duration := Some 1; error := None |}.

Definition logged_twice : state :=
  set_json_log
    {| data := Some (JsonLogs [sample_entry "generate_tree" "success";
                               sample_entry "backup" "error"]);
       readable := true; writable := true |} healthy.

(** ** Spacing, shapes and the watch *)

(** Fire times that come more than [d] after one another, the first more
    than [d] after [from]. *)
Fixpoint spaced (d from : Q) (fires : list Q) : Prop :=
  match fires with
  | [] => True
  | f :: rest => d < f - from /\ spaced d f rest
  end.

(** What a line of the tree goes on with after the prefix of its
    directory. *)
Definition branch_or_continuation (rest : string) : Prop :=
  exists tail, rest = "├── " ++ tail \/ rest = "└── " ++ tail
               \/ rest = "│   " ++ tail \/ rest = "    " ++ tail.

Definition not_watching : list string :=
  ["⚠️ 감시 중이 아닙니다."; "⚠️ Not currently watching."].


(** ** The lines of the tree and the counters *)







(** * Properties *)

(** ** The debounce gate *)

Section Debounce.

Lemma on_any_event_gate_closed h ev t :
  t - last_update h <= update_delay h ->
  on_any_event h ev t = (h, None).
Proof.
  intros Hle. unfold on_any_event.
  destruct (path_filtered (src_path ev)); [reflexivity|].
  destruct (qualifies ev); [|reflexivity].
  apply Qle_bool_iff in Hle. rewrite Hle. reflexivity.
Qed.

Lemma on_any_event_gate_open h ev t :
  accepted ev = true ->
  update_delay h < t - last_update h ->
  on_any_event h ev t =
    ({| last_update := t; update_delay := update_delay h |}, Some (t + update_delay h)).
Proof.
  unfold accepted, on_any_event. intros Hacc Hlt.
  apply andb_true_iff in Hacc as [Hf Hq].
  apply negb_true_iff in Hf. rewrite Hf, Hq.
  destruct (Qle_bool (t - last_update h) (update_delay h)) eqn:Hb; [|reflexivity].
  apply Qle_bool_iff in Hb. lra.
Qed.

(** Events that arrive while the gate is closed leave the handler as it is
    and start no timer. *)
Lemma run_events_absorbed evs : forall h,
  (forall te, In te evs -> fst te - last_update h <= update_delay h) ->
  run_events h evs = (h, []).
Proof.
  induction evs as [|[t ev] rest IH]; intros h Hall; [reflexivity|].
  simpl. rewrite on_any_event_gate_closed by (apply (Hall (t, ev)); now left).
  rewrite IH by (intros te Hin; apply Hall; now right). reflexivity.
Qed.

(** Within one burst a timer is started at most once, by the first event
    that finds the gate open. *)
Lemma run_events_burst evs : forall h,
  Forall (fun te => accepted (snd te) = true) evs ->
  (forall a b, In a evs -> In b evs -> fst a - fst b < update_delay h) ->
  (exists h', run_events h evs = (h', []))
  \/ (exists t ev h', In (t, ev) evs /\ run_events h evs = (h', [t + update_delay h])).
Proof.
  induction evs as [|[t ev] rest IH]; intros h Hacc Hnear.
  - left. now exists h.
  - inversion Hacc as [|? ? Hev Hrest]; subst. simpl in Hev. simpl.
    destruct (Qlt_le_dec (update_delay h) (t - last_update h)) as [Hopen|Hclosed].
    + right. rewrite on_any_event_gate_open by assumption.
      rewrite run_events_absorbed.
      * exists t, ev. eexists. split; [now left|reflexivity].
      * intros te Hin. simpl.
        specialize (Hnear te (t, ev) (or_intror Hin) (or_introl eq_refl)).
        simpl in Hnear. lra.
    + rewrite on_any_event_gate_closed by assumption.
      destruct (IH h Hrest) as [[h' E]|(t' & ev' & h' & Hin & E)].
      * intros a b Ha Hb. apply Hnear; now right.
      * left. exists h'. now rewrite E.
      * right. exists t', ev', h'. split; [now right|now rewrite E].
Qed.

End Debounce.

(** C1, as stated, fails: two qualifying events half a time unit apart, the
    first half a time unit after the handler was built, start no regeneration
    at all. *)
Lemma C1_burst_after_start_schedules_nothing :
  let burst := [(10.5, note_event); (11, note_event)] in
  Forall (fun te => accepted (snd te) = true) burst
  /\ (forall a b, In a burst -> In b burst -> fst a - fst b < 2)
  /\ snd (run_events (new_handler 10) burst) = []
  /\ ~ List.length (snd (run_events (new_handler 10) burst)) = 1%nat.
Proof.
  simpl. split; [|split; [|split]].
  - repeat constructor.
  - intros a b [<-|[<-|[]]] [<-|[<-|[]]]; simpl; lra.
  - reflexivity.
  - vm_compute. discriminate.
Qed.

(** C1, amended: a burst of accepted events, any two of them less than the
    quiet window of 2 apart, starts at most one regeneration; it starts
    exactly one, firing 2 after the first event, when the first event comes
    more than 2 after the time the handler last recorded, and none when
    every event comes within 2 of that time; and once a regeneration is
    started, events delivered until it fires leave the handler unchanged and
    start nothing. *)
Theorem C1_debounce_single_flight :
  forall (h : handler) (burst : list (Q * event)),
    update_delay h = 2 ->
    Forall (fun te => accepted (snd te) = true) burst ->
    (forall a b, In a burst -> In b burst -> fst a - fst b < 2) ->
    (List.length (snd (run_events h burst)) <= 1)%nat
    /\ (forall t ev rest, burst = (t, ev) :: rest -> 2 < t - last_update h ->
          snd (run_events h burst) = [t + 2])
    /\ ((forall te, In te burst -> fst te - last_update h <= 2) ->
        run_events h burst = (h, []))
    /\ (forall t ev h' fire later,
          on_any_event h ev t = (h', Some fire) ->
          (forall te, In te later -> t <= fst te <= fire) ->
          fire = t + 2 /\ run_events h' later = (h', [])).
Proof.
  intros h burst Hd Hacc Hnear. split; [|split; [|split]].
  - destruct (run_events_burst burst h Hacc) as [[h' E]|(t & ev & h' & _ & E)].
    + now rewrite Hd.
    + rewrite E. simpl. lia.
    + rewrite E. simpl. lia.
  - intros t ev rest -> Hopen. simpl.
    inversion Hacc as [|? ? Hev Hrest]; subst. simpl in Hev.
    rewrite on_any_event_gate_open by (try assumption; rewrite Hd; assumption).
    rewrite run_events_absorbed.
    + now rewrite Hd.
    + intros te Hin. simpl. rewrite Hd.
      specialize (Hnear te (t, ev) (or_intror Hin) (or_introl eq_refl)).
      simpl in Hnear. lra.
  - intros Hgate. apply run_events_absorbed. now rewrite Hd.
  - intros t ev h' fire later Hstep Hlater.
    unfold on_any_event in Hstep.
    destruct (path_filtered (src_path ev)); [discriminate|].
    destruct (qualifies ev); [|discriminate].
    destruct (negb (Qle_bool (t - last_update h) (update_delay h))); [|discriminate].
    inversion Hstep; subst. rewrite Hd. split; [reflexivity|].
    apply run_events_absorbed. intros te Hin. simpl.
    destruct (Hlater te Hin) as [_ Hle]. rewrite Hd in Hle. lra.
Qed.

Lemma C1_debounce_single_flight_witness :
  let h := new_handler 10 in
  let burst := [(13, note_event); (14, note_event); (14.5, note_event)] in
  (List.length (snd (run_events h burst)) <= 1)%nat
  /\ snd (run_events h burst) = [13 + 2].
Proof.
  intros h burst.
  assert (Hd : update_delay h = 2) by reflexivity.
  assert (Hacc : Forall (fun te => accepted (snd te) = true) burst)
    by (repeat constructor).
  assert (Hnear : forall a b, In a burst -> In b burst -> fst a - fst b < 2).
  { intros a b [<-|[<-|[<-|[]]]] [<-|[<-|[<-|[]]]]; simpl; lra. }
  destruct (C1_debounce_single_flight h burst Hd Hacc Hnear) as (H1 & H2 & _).
  split; [exact H1|].
  apply (H2 13 note_event [(14, note_event); (14.5, note_event)] eq_refl).
  simpl. lra.
Defined.

(** ** The path filter of the event handler *)










(** ** [sorted] *)

Section Sorting.

Lemma path_compare_antisym p : forall q,
  path_compare q p = CompOpp (path_compare p q).
Proof.
  induction p as [|a p IH]; intros [|b q]; simpl; try reflexivity.
  rewrite (String.compare_antisym b a).
  destruct (String.compare a b); simpl; auto.
Qed.

Lemma path_leb_total p q : path_leb p q = false -> path_leb q p = true.
Proof.
  unfold path_leb. rewrite (path_compare_antisym p q).
  destruct (path_compare p q); simpl; congruence.
Qed.

Lemma insert_perm x l : Permutation (insert x l) (x :: l).
Proof.
  induction l as [|y l IH]; simpl; [reflexivity|].
  destruct (path_leb x y); [reflexivity|].
  rewrite IH. apply perm_swap.
Qed.

Lemma sorted_perm l : Permutation (sorted l) l.
Proof.
  induction l as [|x l IH]; simpl; [reflexivity|].
  rewrite insert_perm. now constructor.
Qed.

Lemma insert_hd x y l :
  path_le y x -> HdRel path_le y l -> HdRel path_le y (insert x l).
Proof.
  intros Hyx Hhd. destruct l as [|z l]; simpl; [now constructor|].
  destruct (path_leb x z); constructor; [assumption|now inversion Hhd].
Qed.

Lemma insert_sorted x l : Sorted path_le l -> Sorted path_le (insert x l).
Proof.
  induction 1 as [|y l Hs IH Hhd]; simpl; [repeat constructor|].
  destruct (path_leb x y) eqn:E.
  - repeat constructor; assumption.
  - constructor; [exact IH|].
    apply insert_hd; [apply path_leb_total; exact E|exact Hhd].
Qed.

Lemma sorted_Sorted l : Sorted path_le (sorted l).
Proof.
  induction l as [|x l IH]; simpl; [constructor|now apply insert_sorted].
Qed.

Lemma sorted_In x l : In x (sorted l) <-> In x l.
Proof.
  split; apply Permutation_in; [|symmetry]; apply sorted_perm.
Qed.

Lemma sorted_length l : List.length (sorted l) = List.length l.
Proof. apply Permutation_length, sorted_perm. Qed.

Lemma string_compare_refl a : String.compare a a = Eq.
Proof.
  pose proof (String.compare_antisym a a) as H.
  destruct (String.compare a a); simpl in H; congruence.
Qed.

(** Two entries of one directory compare as their names do. *)
Lemma path_leb_siblings d a b :
  path_leb (joinpath d a) (joinpath d b) = String.leb a b.
Proof.
  unfold path_leb, String.leb, joinpath.
  induction d as [|x d IH]; simpl.
  - now destruct (String.compare a b).
  - now rewrite string_compare_refl.
Qed.

Lemma name_joinpath d a : name (joinpath d a) = a.
Proof. unfold name, joinpath. apply last_last. Qed.

Lemma Sorted_siblings d l :
  Forall (child_of d) l -> Sorted path_le l -> Sorted name_le l.
Proof.
  intros Hall Hs. induction Hs as [|x l Hs IH Hhd]; [constructor|].
  inversion Hall as [|? ? [a ->] Hl]; subst.
  constructor; [now apply IH|].
  destruct Hhd as [|y l Hxy]; constructor.
  inversion Hl as [|? ? [b ->] _]; subst.
  unfold name_le. rewrite !name_joinpath.
  unfold path_le in Hxy. now rewrite path_leb_siblings in Hxy.
Qed.

End Sorting.

(** ** The renderer, one directory at a time *)

Section Renderer.

Variable fs : filesystem.

Lemma iterdir_children directory listed :
  iterdir fs directory = Ok listed -> Forall (child_of directory) listed.
Proof.
  unfold iterdir. destruct (lookup fs directory) as [[| |children|]|]; try discriminate.
  intros [= <-]. apply Forall_forall. intros p Hin.
  apply in_map_iff in Hin as (nc & <- & _). now exists (fst nc).
Qed.

Lemma tree_items_incl listed p : In p (tree_items listed) -> In p listed.
Proof. unfold tree_items. intros H. now apply filter_In in H. Qed.

Lemma tree_directories_spec listed p :
  In p (tree_directories fs listed)
  <-> In p listed /\ _should_ignore p = false /\ is_dir fs p = true.
Proof.
  unfold tree_directories, tree_items. rewrite sorted_In, !filter_In, negb_true_iff.
  tauto.
Qed.

Lemma tree_files_spec listed p :
  In p (tree_files fs listed)
  <-> In p listed /\ _should_ignore p = false
      /\ is_file fs p = true /\ has_supported_extension (name p) = true.
Proof.
  unfold tree_files, tree_items.
  rewrite sorted_In, !filter_In, negb_true_iff, andb_true_iff. tauto.
Qed.

Lemma is_file_not_dir p : is_file fs p = true -> is_dir fs p = false.
Proof.
  unfold is_file, is_dir. now destruct (lookup fs p) as [[| | |]|].
Qed.

Lemma combine_append {A B : Type} (a1 : list A) : forall (b1 : list B) a2 b2,
  List.length a1 = List.length b1 ->
  combine (a1 ++ a2)%list (b1 ++ b2)%list = (combine a1 b1 ++ combine a2 b2)%list.
Proof.
  induction a1 as [|x a1 IH]; intros [|y b1] a2 b2 Hlen; try discriminate;
    [reflexivity|].
  simpl. f_equal. apply IH. now injection Hlen.
Qed.

Lemma enumerate_app {A : Type} (a b : list A) :
  enumerate (a ++ b)%list
  = (combine (seq 0 (List.length a)) a
     ++ combine (seq (List.length a) (List.length b)) b)%list.
Proof.
  unfold enumerate. rewrite length_app, seq_app.
  rewrite combine_append by now rewrite length_seq. reflexivity.
Qed.

Lemma _generate_tree_structure_listed fuel directory prefix is_last listed :
  iterdir fs directory = Ok listed ->
  _generate_tree_structure fs (S fuel) directory prefix is_last
  = flat_map (render_item fs (_generate_tree_structure fs fuel) prefix
                          (List.length (all_items fs listed)))
             (enumerate (all_items fs listed)).
Proof. intros H. simpl. now rewrite H. Qed.

Lemma flat_map_files recurse prefix n (l : list (nat * path)) :
  Forall (fun e => is_dir fs (snd e) = false) l ->
  flat_map (render_item fs recurse prefix n) l = map (item_line fs prefix n) l.
Proof.
  induction 1 as [|[i p] l Hp _ IH]; [reflexivity|].
  simpl in *. rewrite Hp, IH. reflexivity.
Qed.

Lemma Forall_combine_snd {A B : Type} (P : B -> Prop) (a : list A) (b : list B) :
  Forall P b -> Forall (fun e => P (snd e)) (combine a b).
Proof.
  intros Hb. revert a. induction Hb as [|y b Hy _ IH]; intros [|x a]; simpl;
    constructor; auto.
Qed.

End Renderer.

(** ** The depth of the recursion *)

Section Fuel.

Variable fs : filesystem.

Lemma strip_prefix_snoc base : forall p rel n,
  strip_prefix base p = Some rel ->
  strip_prefix base (p ++ [n])%list = Some (rel ++ [n])%list.
Proof.
  induction base as [|b base IH]; intros p rel n H; simpl in *.
  - now injection H as ->.
  - destruct p as [|x p]; [discriminate|]. simpl.
    destruct (String.eqb b x); [now apply IH|discriminate].
Qed.

Lemma descend_snoc rel : forall t n,
  descend t (rel ++ [n])%list
  = match descend t rel with
    | Some (Dir children) => assoc n children
    | _ => None
    end.
Proof.
  induction rel as [|m rel IH]; intros t n; simpl.
  - destruct t as [| |children|]; try reflexivity.
    now destruct (assoc n children).
  - destruct t as [| |children|]; try reflexivity.
    destruct (assoc m children) as [c|]; [apply IH|reflexivity].
Qed.

Lemma lookup_joinpath directory n t :
  lookup fs directory = Some t ->
  lookup fs (joinpath directory n)
  = match t with
    | Dir children => assoc n children
    | _ => None
    end.
Proof.
  unfold lookup, joinpath.
  destruct (strip_prefix (mount fs) directory) as [rel|] eqn:E; [|discriminate].
  intros H. rewrite (strip_prefix_snoc _ _ _ n E), descend_snoc, H.
  reflexivity.
Qed.

Lemma assoc_height n children : forall c,
  assoc n children = Some c -> (height c < height (Dir children))%nat.
Proof.
  induction children as [|[m t] children IH]; intros c H; [discriminate|].
  simpl in H. cbn [height fold_right snd] in *.
  destruct (String.eqb n m).
  - injection H as ->. lia.
  - specialize (IH c H). lia.
Qed.

Lemma descend_height rel : forall t t',
  descend t rel = Some t' -> (height t' <= height t)%nat.
Proof.
  induction rel as [|n rel IH]; intros t t' H; simpl in H.
  - injection H as ->. lia.
  - destruct t as [| |children|]; try discriminate.
    destruct (assoc n children) as [c|] eqn:E; [|discriminate].
    apply IH in H. apply assoc_height in E. lia.
Qed.

Lemma lookup_height directory t :
  lookup fs directory = Some t -> (height t <= height (content fs))%nat.
Proof.
  unfold lookup. destruct (strip_prefix (mount fs) directory); [|discriminate].
  apply descend_height.
Qed.

Lemma flat_map_ext_In {A B : Type} (f g : A -> list B) l :
  (forall x, In x l -> f x = g x) -> flat_map f l = flat_map g l.
Proof.
  induction l as [|x l IH]; intros H; [reflexivity|].
  simpl. rewrite (H x (or_introl eq_refl)), IH; [reflexivity|].
  intros y Hy. apply H. now right.
Qed.

(** Fuel beyond the height of the directory changes nothing. *)
Lemma generate_tree_structure_fuel f1 : forall f2 directory prefix is_last,
  (forall t, lookup fs directory = Some t -> (height t <= f1 /\ height t <= f2)%nat) ->
  _generate_tree_structure fs (S f1) directory prefix is_last
  = _generate_tree_structure fs (S f2) directory prefix is_last.
Proof.
  induction f1 as [|f1 IH]; intros f2 directory prefix is_last Hh.
  - cbn [_generate_tree_structure]. unfold iterdir.
    destruct (lookup fs directory) as [[| |children|]|] eqn:E; try reflexivity.
    destruct (Hh _ eq_refl) as [H _]. simpl in H. lia.
  - destruct f2 as [|f2].
    { symmetry. cbn [_generate_tree_structure]. unfold iterdir.
      destruct (lookup fs directory) as [[| |children|]|] eqn:E; try reflexivity.
      destruct (Hh _ eq_refl) as [_ H]. simpl in H. lia. }
    destruct (iterdir fs directory) as [listed|e] eqn:Hl.
    + rewrite !(_generate_tree_structure_listed fs _ directory prefix is_last listed Hl).
      apply flat_map_ext_In. intros [i item] Hin.
      unfold render_item. f_equal.
      destruct (is_dir fs item); [|reflexivity].
      apply IH. intros t Ht.
      assert (Hitem : In item listed).
      { apply in_combine_r in Hin. unfold all_items in Hin.
        apply in_app_or in Hin as [Hin|Hin].
        - now apply tree_directories_spec in Hin.
        - now apply tree_files_spec in Hin. }
      unfold iterdir in Hl.
      destruct (lookup fs directory) as [[| |children|]|] eqn:E; try discriminate.
      injection Hl as <-. apply in_map_iff in Hitem as (nc & <- & _).
      rewrite (lookup_joinpath _ _ _ E) in Ht. apply assoc_height in Ht.
      destruct (Hh _ eq_refl). lia.
    + cbn [_generate_tree_structure]. now rewrite Hl.
Qed.

(** [render_fuel] is enough for every directory: more fuel gives the same
    lines. *)
Lemma render_fuel_enough fuel directory prefix is_last :
  (render_fuel fs <= fuel)%nat ->
  _generate_tree_structure fs fuel directory prefix is_last
  = _generate_tree_structure fs (render_fuel fs) directory prefix is_last.
Proof.
  unfold render_fuel. intros Hle. destruct fuel as [|fuel]; [lia|].
  apply generate_tree_structure_fuel. intros t Ht.
  apply lookup_height in Ht. lia.
Qed.

End Fuel.

(** ** Failures of the traversal *)

(** C3, as stated, fails: when the root itself cannot be listed, the renderer
    returns the marker line as the whole body, the render returns its text
    and the output file is written; nothing propagates to the caller. *)
Lemma C3_unreadable_root_is_not_fatal :
  iterdir (vault_fs denied_root) (vault_path denied_root)
  = Raise (PermissionError "/vault")
  /\ _generate_tree_structure (vault_fs denied_root) (render_fuel (vault_fs denied_root))
       (vault_path denied_root) "" true = [PERMISSION_MARKER]
  /\ (exists text, snd (generate_tree_markdown denied_root) = Ok text)
  /\ snd (update_tree_structure denied_root) = Ok tt
  /\ (exists text,
        data (tree_file (fst (update_tree_structure denied_root))) = Some text).
Proof.
  split; [reflexivity|]. split; [reflexivity|]. split; [|split].
  - eexists. vm_compute. reflexivity.
  - vm_compute. reflexivity.
  - eexists. vm_compute. reflexivity.
Qed.

(** C3, amended: a failure raised while listing a directory, the root
    included, is recovered where it happens as one marker line and is never
    passed on by the renderer; below a directory that was listed, every entry
    kept is rendered in turn, and a subdirectory whose listing is denied
    contributes its own line followed by the one marker line. *)
Theorem C3_listing_failure_is_a_marker :
  forall (fs : filesystem) (fuel : nat) (directory : path) (prefix : string)
         (is_last : bool),
    (forall e, iterdir fs directory = Raise e ->
       exists marker,
         _generate_tree_structure fs (S fuel) directory prefix is_last
         = [prefix ++ marker]
         /\ (marker = PERMISSION_MARKER \/ marker = error_marker e))
    /\ (forall listed, iterdir fs directory = Ok listed ->
          let n := List.length (all_items fs listed) in
          let recurse := _generate_tree_structure fs (S fuel) in
          _generate_tree_structure fs (S (S fuel)) directory prefix is_last
          = flat_map (render_item fs recurse prefix n) (enumerate (all_items fs listed))
          /\ (forall i item f,
                In (i, item) (enumerate (all_items fs listed)) ->
                iterdir fs item = Raise (PermissionError f) ->
                render_item fs recurse prefix n (i, item)
                = [item_line fs prefix n (i, item);
                   next_prefix prefix (Nat.eqb i (n - 1)) ++ PERMISSION_MARKER])).
Proof.
  intros fs fuel directory prefix is_last. split.
  - intros e He. simpl. rewrite He.
    destruct e; eexists; (split; [reflexivity|]); auto.
  - intros listed Hl n recurse. split.
    + now apply _generate_tree_structure_listed.
    + intros i item f _ Hitem. unfold render_item, item_line. simpl fst. simpl snd.
      assert (Hdir : is_dir fs item = true).
      { unfold iterdir in Hitem. unfold is_dir.
        destruct (lookup fs item) as [[| | |]|]; try discriminate; reflexivity. }
      rewrite Hdir. unfold recurse. simpl. now rewrite Hitem.
Qed.

Lemma C3_listing_failure_is_a_marker_witness :
  (exists marker,
     _generate_tree_structure one_denied 1 ["/"; "vault"; "b"] "│   " false
     = ["│   " ++ marker]
     /\ (marker = PERMISSION_MARKER
         \/ marker = error_marker (PermissionError "/vault/b")))
  /\ render_item one_denied (_generate_tree_structure one_denied 1) "" 3
       (1%nat, ["/"; "vault"; "b"])
     = ["├── 📁 **b**"; "│   ├── ❌ 접근 권한 없음 / Permission Denied"].
Proof.
  split.
  - destruct (C3_listing_failure_is_a_marker one_denied 0 ["/"; "vault"; "b"]
                "│   " false) as [H _].
    exact (H (PermissionError "/vault/b") eq_refl).
  - destruct (C3_listing_failure_is_a_marker one_denied 0 ["/"; "vault"] ""
                true) as [_ H].
    destruct (H _ eq_refl) as [_ Hb].
    apply (Hb 1%nat ["/"; "vault"; "b"] "/vault/b"); [|reflexivity].
    simpl. tauto.
Defined.

(** ** The order of the lines of one directory *)

(** C6: the lines of a directory are the blocks of its subdirectories, each
    the line of the subdirectory followed by the lines of its subtree, and
    after them the lines of its files; the subdirectories and the files each
    come in non-decreasing order of their names. *)
Theorem C6_directories_before_files_sorted :
  forall (fs : filesystem) (fuel : nat) (directory : path) (prefix : string)
         (is_last : bool) (listed : list path),
    iterdir fs directory = Ok listed ->
    let dirs := tree_directories fs listed in
    let files := tree_files fs listed in
    let n := (List.length dirs + List.length files)%nat in
    let recurse := _generate_tree_structure fs fuel in
    _generate_tree_structure fs (S fuel) directory prefix is_last
    = (flat_map (render_item fs recurse prefix n)
                (combine (seq 0 (List.length dirs)) dirs)
       ++ map (item_line fs prefix n)
              (combine (seq (List.length dirs) (List.length files)) files))%list
    /\ (forall i d, In d dirs ->
          is_dir fs d = true
          /\ render_item fs recurse prefix n (i, d)
             = item_line fs prefix n (i, d)
               :: recurse d (next_prefix prefix (Nat.eqb i (n - 1))) (Nat.eqb i (n - 1)))
    /\ Forall (fun f => is_file fs f = true) files
    /\ Sorted name_le dirs
    /\ Sorted name_le files.
Proof.
  intros fs fuel directory prefix is_last listed Hl dirs files n recurse.
  assert (Hfiles : Forall (fun f => is_file fs f = true) files).
  { apply Forall_forall. intros f Hf. now apply tree_files_spec in Hf. }
  pose proof (iterdir_children fs directory listed Hl) as Hch.
  split; [|split; [|split; [|split]]].
  - rewrite (_generate_tree_structure_listed fs fuel directory prefix is_last listed Hl).
    unfold all_items. fold dirs files. rewrite length_app, enumerate_app.
    rewrite flat_map_app. f_equal.
    apply flat_map_files.
    apply (Forall_combine_snd (fun p => is_dir fs p = false)).
    eapply Forall_impl; [|exact Hfiles]. apply is_file_not_dir.
  - intros i d Hd. apply tree_directories_spec in Hd as (_ & _ & Hdir).
    split; [exact Hdir|]. unfold render_item, item_line. simpl. now rewrite Hdir.
  - exact Hfiles.
  - apply (Sorted_siblings directory); [|apply sorted_Sorted].
    apply Forall_forall. intros p Hp. apply tree_directories_spec in Hp as (Hp & _).
    revert p Hp. now apply Forall_forall.
  - apply (Sorted_siblings directory); [|apply sorted_Sorted].
    apply Forall_forall. intros p Hp. apply tree_files_spec in Hp as (Hp & _).
    revert p Hp. now apply Forall_forall.
Qed.

Lemma C6_directories_before_files_sorted_witness :
  _generate_tree_structure (scenario_fs ["/"; "vault"]) 2 ["/"; "vault"] "" true
  = ["├── 📁 **archive**"; "│   └── 📝 old.md"; "└── 📁 **notes**";
     "    ├── 📝 a.md"; "    └── 📝 b.md"]
  /\ Sorted name_le (tree_files (scenario_fs ["/"; "vault"])
                       [["/"; "vault"; "notes"; "b.md"]; ["/"; "vault"; "notes"; "a.md"]]).
Proof.
  split.
  - destruct (C6_directories_before_files_sorted (scenario_fs ["/"; "vault"]) 1
                ["/"; "vault"] "" true _ eq_refl) as (E & _).
    rewrite E. reflexivity.
  - apply (C6_directories_before_files_sorted (scenario_fs ["/"; "vault"]) 0
             ["/"; "vault"; "notes"] "" true _ eq_refl).
Defined.

(** ** Suffixes and extensions *)

Section Suffix.










End Suffix.

(** ** The counters *)

Section Counters.

Variable fs : filesystem.





End Counters.



(** ** Moving the vault *)

(** What the renderer and the counters compute depends on the place of the
    vault only through [_should_ignore], which looks at every part of a path,
    those of the vault's own path included. *)

Section Relocation.

Variable root : path.
Variable t : tree.
Hypothesis root_kept : _should_ignore root = false.

Lemma strip_prefix_app rel : strip_prefix root (root ++ rel)%list = Some rel.
Proof.
  clear root_kept. induction root as [|a r IH]; simpl; [reflexivity|].
  now rewrite String.eqb_refl.
Qed.

Lemma lookup_relocate rel :
  lookup (vault_at root t) (relocate root rel) = lookup (vault_at [] t) rel.
Proof. unfold lookup, relocate. simpl. now rewrite strip_prefix_app. Qed.

Lemma is_dir_relocate rel :
  is_dir (vault_at root t) (relocate root rel) = is_dir (vault_at [] t) rel.
Proof. unfold is_dir. now rewrite lookup_relocate. Qed.

Lemma is_file_relocate rel :
  is_file (vault_at root t) (relocate root rel) = is_file (vault_at [] t) rel.
Proof. unfold is_file. now rewrite lookup_relocate. Qed.

Lemma should_ignore_relocate rel :
  _should_ignore (relocate root rel) = _should_ignore rel.
Proof.
  unfold relocate, _should_ignore. rewrite existsb_app.
  change (existsb part_ignored root) with (_should_ignore root).
  now rewrite root_kept.
Qed.

Lemma name_relocate rel : rel <> [] -> name (relocate root rel) = name rel.
Proof.
  clear root_kept. intros Hne. unfold name, relocate.
  induction root as [|a r IH]; [reflexivity|].
  simpl. destruct (r ++ rel)%list eqn:E; [|exact IH].
  apply app_eq_nil in E as [_ E]. contradiction.
Qed.

Lemma suffix_relocate rel : rel <> [] -> suffix (relocate root rel) = suffix rel.
Proof. intros Hne. unfold suffix. now rewrite name_relocate. Qed.

Lemma item_name_relocate rel :
  rel <> [] ->
  item_name (vault_at root t) (relocate root rel) = item_name (vault_at [] t) rel.
Proof.
  intros Hne. unfold item_name.
  now rewrite is_dir_relocate, name_relocate, suffix_relocate.
Qed.

Lemma path_leb_relocate a b : path_leb (relocate root a) (relocate root b) = path_leb a b.
Proof.
  clear root_kept. unfold path_leb, relocate.
  induction root as [|x r IH]; simpl; [reflexivity|].
  now rewrite string_compare_refl.
Qed.

Lemma insert_relocate x l :
  insert (relocate root x) (map (relocate root) l) = map (relocate root) (insert x l).
Proof.
  induction l as [|y l IH]; [reflexivity|].
  simpl. rewrite path_leb_relocate, IH. now destruct (path_leb x y).
Qed.

Lemma sorted_relocate l : sorted (map (relocate root) l) = map (relocate root) (sorted l).
Proof.
  induction l as [|x l IH]; [reflexivity|].
  simpl. now rewrite IH, insert_relocate.
Qed.

Lemma filter_map_In {A B : Type} (f : A -> B) (P : B -> bool) (Q : A -> bool) l :
  (forall x, In x l -> P (f x) = Q x) ->
  filter P (map f l) = map f (filter Q l).
Proof.
  induction l as [|x l IH]; intros H; [reflexivity|].
  simpl. rewrite (H x (or_introl eq_refl)), IH by (intros y Hy; apply H; now right).
  now destruct (Q x).
Qed.

Lemma all_items_relocate l :
  Forall (fun p => p <> []) l ->
  all_items (vault_at root t) (map (relocate root) l)
  = map (relocate root) (all_items (vault_at [] t) l).
Proof.
  intros Hne. rewrite Forall_forall in Hne.
  unfold all_items, tree_directories, tree_files, tree_items.
  rewrite map_app, <- !sorted_relocate.
  rewrite (filter_map_In (relocate root) _ (fun item => negb (_should_ignore item)))
    by (intros; now rewrite should_ignore_relocate).
  rewrite (filter_map_In (relocate root) _ (is_dir (vault_at [] t)))
    by (intros; apply is_dir_relocate).
  rewrite (filter_map_In (relocate root) _
             (fun item => is_file (vault_at [] t) item
                          && has_supported_extension (name item))).
  - reflexivity.
  - intros p Hp. apply filter_In in Hp as [Hp _].
    now rewrite is_file_relocate, name_relocate by auto.
Qed.

Lemma iterdir_relocate rel :
  is_dir (vault_at [] t) rel = true ->
  match iterdir (vault_at [] t) rel with
  | Ok listed =>
      iterdir (vault_at root t) (relocate root rel) = Ok (map (relocate root) listed)
      /\ Forall (fun p => p <> [] /\ In p listed) listed
  | Raise e =>
      exists f f', e = PermissionError f
                   /\ iterdir (vault_at root t) (relocate root rel)
                      = Raise (PermissionError f')
  end.
Proof.
  unfold is_dir, iterdir. rewrite lookup_relocate.
  destruct (lookup (vault_at [] t) rel) as [[| |children|]|]; try discriminate; intros _.
  - split.
    + f_equal. rewrite map_map. apply map_ext. intros nc.
      unfold relocate, joinpath. now rewrite app_assoc.
    + apply Forall_forall. intros p Hp. split; [|exact Hp].
      apply in_map_iff in Hp as (nc & <- & _). unfold joinpath.
      now destruct rel.
  - now eexists; eexists.
Qed.

Lemma flat_map_combine_relocate (f g : nat * path -> list string) l : forall s,
  (forall i p, In p l -> f (i, relocate root p) = g (i, p)) ->
  flat_map f (combine s (map (relocate root) l)) = flat_map g (combine s l).
Proof.
  induction l as [|p l IH]; intros [|i s] H; try reflexivity.
  simpl. rewrite (H i p (or_introl eq_refl)). f_equal.
  apply IH. intros j q Hq. apply H. now right.
Qed.

(** The lines of a vault do not depend on where it is, as long as no part of
    its own path is ignored. *)
Lemma generate_tree_structure_relocate fuel : forall rel prefix is_last,
  is_dir (vault_at [] t) rel = true ->
  _generate_tree_structure (vault_at root t) fuel (relocate root rel) prefix is_last
  = _generate_tree_structure (vault_at [] t) fuel rel prefix is_last.
Proof.
  induction fuel as [|fuel IH]; intros rel prefix is_last Hdir; [reflexivity|].
  pose proof (iterdir_relocate rel Hdir) as Hit. simpl.
  destruct (iterdir (vault_at [] t) rel) as [listed|e].
  - destruct Hit as [-> Hl]. rewrite Forall_forall in Hl.
    rewrite all_items_relocate
      by (apply Forall_forall; intros p Hp; now apply Hl).
    unfold enumerate. rewrite !length_map.
    apply flat_map_combine_relocate. intros i p Hp.
    assert (Hne : p <> []).
    { apply Hl. unfold all_items in Hp. apply in_app_or in Hp as [Hp|Hp].
      - now apply tree_directories_spec in Hp.
      - now apply tree_files_spec in Hp. }
    unfold render_item. rewrite item_name_relocate, is_dir_relocate by exact Hne.
    destruct (is_dir (vault_at [] t) p) eqn:Hp'; [|reflexivity].
    now rewrite IH.
  - destruct Hit as (f & f' & -> & ->). reflexivity.
Qed.

Lemma count_item_relocate st rel :
  rel <> [] ->
  count_item (vault_at root t) st (relocate root rel)
  = count_item (vault_at [] t) st rel.
Proof.
  intros Hne. unfold count_item.
  now rewrite should_ignore_relocate, is_dir_relocate, is_file_relocate,
    suffix_relocate, name_relocate.
Qed.

Lemma count_items_relocate l : forall st,
  Forall (fun p => p <> []) l ->
  fold_left (count_item (vault_at root t)) (map (relocate root) l) st
  = fold_left (count_item (vault_at [] t)) l st.
Proof.
  induction l as [|p l IH]; intros st Hne; [reflexivity|].
  inversion Hne; subst. simpl. rewrite count_item_relocate by assumption.
  now apply IH.
Qed.

End Relocation.

Lemma lookup_mount root t : lookup (vault_at root t) root = Some t.
Proof.
  unfold lookup. simpl. rewrite <- (app_nil_r root) at 2.
  now rewrite strip_prefix_app.
Qed.

Section Walk.

(** Induction on a tree, with the property at hand for every entry of a
    directory. *)
Lemma tree_induction (P : tree -> Prop) :
  P File -> P Special -> P Denied ->
  (forall children, Forall (fun nc => P (snd nc)) children -> P (Dir children)) ->
  forall t, P t.
Proof.
  intros HF HS HD HDir. fix IH 1. intros [| |children|]; try assumption.
  apply HDir. induction children as [|[n c] children IHc]; constructor.
  - apply IH.
  - exact IHc.
Qed.

Variable root : path.

Lemma joinpath_relocate p n :
  joinpath (relocate root p) n = relocate root (joinpath p n).
Proof. unfold joinpath, relocate. now rewrite app_assoc. Qed.

Lemma iterate_directories_relocate t : forall p,
  iterate_directories t (relocate root p)
  = map (fun pt => (relocate root (fst pt), snd pt)) (iterate_directories t p).
Proof.
  induction t as [| | |children IH] using tree_induction; intros p;
    try reflexivity.
  cbn [iterate_directories map fst snd]. f_equal.
  induction IH as [|nc children Hnc _ IHc]; [reflexivity|].
  cbn [flat_map]. rewrite map_app, IHc. f_equal.
  destruct (is_dir_tree (snd nc)); [|reflexivity].
  now rewrite joinpath_relocate, Hnc.
Qed.

Lemma select_children_relocate pt :
  select_children (relocate root (fst pt), snd pt)
  = map (relocate root) (select_children pt).
Proof.
  unfold select_children. cbn [fst snd].
  destruct (snd pt) as [| |children|]; try reflexivity.
  rewrite map_map. apply map_ext. intros nc. apply joinpath_relocate.
Qed.

Lemma walk_relocate t p :
  flat_map select_children (iterate_directories t (relocate root p))
  = map (relocate root) (flat_map select_children (iterate_directories t p)).
Proof.
  rewrite iterate_directories_relocate.
  induction (iterate_directories t p) as [|pt l IH]; [reflexivity|].
  cbn [map flat_map]. now rewrite map_app, IH, select_children_relocate.
Qed.

Lemma walk_nonempty t p :
  Forall (fun q => q <> []) (flat_map select_children (iterate_directories t p)).
Proof.
  apply Forall_forall. intros q Hq.
  apply in_flat_map in Hq as (pt & _ & Hq). unfold select_children in Hq.
  destruct (snd pt) as [| |children|]; try contradiction.
  apply in_map_iff in Hq as (nc & <- & _). unfold joinpath.
  now destruct (fst pt).
Qed.

(** The counters of a vault do not depend on where it is, as long as no part
    of its own path is ignored. *)
Lemma count_items_relocate_root t :
  _should_ignore root = false ->
  _count_items (vault_at root t) root = _count_items (vault_at [] t) [].
Proof.
  intros Hroot. unfold _count_items, rglob.
  rewrite lookup_mount. change (lookup (vault_at [] t) []) with (Some t).
  destruct t as [| |children|]; try reflexivity.
  rewrite <- (app_nil_r root) at 2. change (root ++ [])%list with (relocate root []).
  rewrite walk_relocate. apply count_items_relocate; [exact Hroot|].
  apply walk_nonempty.
Qed.

(** The same for the lines of a vault whose root is a directory. *)
Lemma generate_tree_structure_relocate_root t fuel prefix is_last :
  _should_ignore root = false ->
  is_dir_tree t = true ->
  _generate_tree_structure (vault_at root t) fuel root prefix is_last
  = _generate_tree_structure (vault_at [] t) fuel [] prefix is_last.
Proof.
  intros Hroot Ht.
  rewrite <- (generate_tree_structure_relocate root t Hroot fuel [] prefix is_last).
  - unfold relocate. now rewrite app_nil_r.
  - unfold is_dir. cbn. now destruct t.
Qed.

End Walk.

(** ** The statistics scenario *)

(** C5, as stated, fails for a vault kept below a hidden directory: every
    entry then has a part of its path that begins with a dot, nothing is
    counted and nothing is rendered. *)
Lemma C5_hidden_root_counts_nothing :
  _count_items (scenario_fs hidden_root) hidden_root = stats_zero
  /\ total_files (_count_items (scenario_fs hidden_root) hidden_root) <> 3%nat
  /\ _generate_tree_structure (scenario_fs hidden_root)
       (render_fuel (scenario_fs hidden_root)) hidden_root "" true = [].
Proof.
  split; [reflexivity|]. split; [|reflexivity].
  vm_compute. discriminate.
Qed.

Lemma Permutation_length_3_inv {A : Type} (a b c : A) l :
  Permutation [a; b; c] l ->
  l = [a; b; c] \/ l = [a; c; b] \/ l = [b; a; c]
  \/ l = [b; c; a] \/ l = [c; a; b] \/ l = [c; b; a].
Proof.
  intros H.
  assert (Hin : In a l) by (eapply Permutation_in; [exact H|now left]).
  apply in_split in Hin as (l1 & l2 & ->).
  apply Permutation_cons_app_inv, Permutation_length_2_inv in H.
  destruct H as [H|H]; destruct l1 as [|x [|y [|z l1]]]; simpl in H;
    inversion H; subst; simpl;
    repeat first [reflexivity | left; reflexivity | right].
Qed.

(** C5, amended: for a root no part of whose own path is ignored or begins
    with a dot, and which holds exactly [notes/a.md], [notes/b.md],
    [archive/old.md] and [.obsidian/config.json], in whatever order the
    directories are listed, the counters are 2 folders, 3 files, 3 markdown
    files and 0 other files, and the tree body is the five lines of [archive]
    and [notes], none of which mentions [.obsidian] or what it holds. *)
Theorem C5_statistics_scenario :
  forall (root : path) (notes top : list (string * tree)),
    _should_ignore root = false ->
    Permutation notes_entries notes ->
    Permutation (root_entries notes) top ->
    let fs := vault_at root (Dir top) in
    let body := _generate_tree_structure fs (render_fuel fs) root "" true in
    _count_items fs root
    = {| total_folders := 2; total_files := 3; md_files := 3; other_files := 0 |}
    /\ body = ["├── 📁 **archive**"; "│   └── 📝 old.md"; "└── 📁 **notes**";
               "    ├── 📝 a.md"; "    └── 📝 b.md"]
    /\ Forall (fun line => Str.contains ".obsidian" line = false
                           /\ Str.contains "config.json" line = false) body.
Proof.
  intros root notes top Hroot Hnotes Htop fs body.
  assert (Hbody : body = ["├── 📁 **archive**"; "│   └── 📝 old.md"; "└── 📁 **notes**";
                          "    ├── 📝 a.md"; "    └── 📝 b.md"]
                  /\ _count_items fs root
                     = {| total_folders := 2; total_files := 3; md_files := 3;
                          other_files := 0 |}).
  { unfold body, fs.
    rewrite (count_items_relocate_root root (Dir top) Hroot).
    rewrite (generate_tree_structure_relocate_root root (Dir top) _ "" true Hroot
               eq_refl).
    apply Permutation_length_2_inv in Hnotes.
    apply Permutation_length_3_inv in Htop.
    destruct Hnotes as [->| ->];
      destruct Htop as [->|[->|[->|[->|[->| ->]]]]];
      split; vm_compute; reflexivity. }
  destruct Hbody as [Hbody Hstats].
  split; [exact Hstats|]. split; [exact Hbody|].
  rewrite Hbody. repeat constructor.
Qed.

Lemma C5_statistics_scenario_witness :
  _count_items (scenario_fs ["/"; "vault"]) ["/"; "vault"]
  = {| total_folders := 2; total_files := 3; md_files := 3; other_files := 0 |}.
Proof.
  apply (C5_statistics_scenario ["/"; "vault"] [("b.md", File); ("a.md", File)]
           [("notes", Dir [("b.md", File); ("a.md", File)]);
            (".obsidian", Dir [("config.json", File)]);
            ("archive", Dir [("old.md", File)])]).
  - reflexivity.
  - apply perm_swap.
  - apply perm_skip, perm_swap.
Defined.

(** ** What an operation leaves alone *)

Section Keeps.

Context {B : Type} (proj : state -> B).

Lemma keeps_ret {A : Type} (a : A) : keeps proj (ret a).
Proof. intros s. reflexivity. Qed.

Lemma keeps_raise {A : Type} (e : exn) : keeps proj (@raise A e).
Proof. intros s. reflexivity. Qed.

Lemma keeps_get {A : Type} (f : state -> A) : keeps proj (get f).
Proof. intros s. reflexivity. Qed.

Lemma keeps_modify (f : state -> state) :
  (forall s, proj (f s) = proj s) -> keeps proj (modify f).
Proof. intros H s. apply H. Qed.

Lemma keeps_bind {A C : Type} (m : M A) (k : A -> M C) :
  keeps proj m -> (forall a, keeps proj (k a)) -> keeps proj (bind m k).
Proof.
  intros Hm Hk s. unfold bind. specialize (Hm s).
  destruct (m s) as [s' [a|e]]; simpl in *; [|exact Hm].
  now rewrite Hk.
Qed.

Lemma keeps_try_except {A : Type} (body : M A) (handle : exn -> M A) :
  keeps proj body -> (forall e, keeps proj (handle e)) ->
  keeps proj (try_except body handle).
Proof.
  intros Hb Hh s. unfold try_except. specialize (Hb s).
  destruct (body s) as [s' [a|e]]; simpl in *; [exact Hb|].
  now rewrite Hh.
Qed.

Lemma keeps_map {A C : Type} (f : B -> C) (m : M A) :
  keeps proj m -> keeps (fun s => f (proj s)) m.
Proof. intros H s. now rewrite H. Qed.

End Keeps.

(** An operation written as a function of the state. *)
Ltac keeps_primitive :=
  let s := fresh "s" in
  intros s;
  repeat match goal with
         | |- context [match ?x with _ => _ end] => destruct x
         end;
  reflexivity.

(** An operation written with the monad. *)
Ltac keeps_monadic prim :=
  repeat first
    [ solve [prim]
    | apply keeps_ret | apply keeps_raise | apply keeps_get
    | apply keeps_modify; intros ?; reflexivity
    | apply keeps_bind; [|intros ?]
    | apply keeps_try_except; [|intros ?]
    | progress cbv zeta
    | match goal with
      | |- keeps _ (match ?x with _ => _ end) => destruct x
      end ].

Section LoggerFrame.

Lemma load_json_log_keeps : keeps outside_logs load_json_log.
Proof. unfold load_json_log. keeps_primitive. Qed.

Lemma dump_json_log_keeps logs : keeps outside_logs (dump_json_log logs).
Proof. unfold dump_json_log. keeps_primitive. Qed.

Lemma append_markdown_log_keeps e : keeps outside_logs (append_markdown_log e).
Proof. unfold append_markdown_log. keeps_primitive. Qed.

Lemma read_markdown_log_keeps : keeps outside_logs read_markdown_log.
Proof. unfold read_markdown_log. keeps_primitive. Qed.

Lemma write_markdown_log_keeps doc : keeps outside_logs (write_markdown_log doc).
Proof. unfold write_markdown_log. keeps_primitive. Qed.

Lemma print_keeps line : keeps outside_logs (print line).
Proof. intros s. reflexivity. Qed.

Ltac logger_primitives :=
  first [ apply load_json_log_keeps | apply dump_json_log_keeps
        | apply append_markdown_log_keeps | apply read_markdown_log_keeps
        | apply write_markdown_log_keeps | apply print_keeps ].

Lemma log_activity_keeps command status summary duration error :
  keeps outside_logs (log_activity command status summary duration error).
Proof.
  unfold log_activity, _append_json_log, _append_markdown_log, _update_statistics,
    _calculate_statistics.
  keeps_monadic logger_primitives.
Qed.

Lemma generate_tree_markdown_keeps : keeps outside_logs generate_tree_markdown.
Proof.
  unfold generate_tree_markdown.
  keeps_monadic ltac:(first [apply log_activity_keeps | apply print_keeps]).
Qed.

End LoggerFrame.

(** ** Regeneration *)

(** C9: [update_tree_structure] returns normally in every state; when the
    generation of the markdown raises, the exception is printed as the two
    failure lines and the output file is what it was; when the generation
    returns and the output file can be opened, the file holds the generated
    text. *)
Theorem C9_update_never_raises :
  forall s : state,
    exists s',
      update_tree_structure s = (s', Ok tt)
      /\ (forall s1 e,
            generate_tree_markdown s = (s1, Raise e) ->
            tree_file s' = tree_file s
            /\ stdout s' = (stdout s1 ++ update_failed e)%list)
      /\ (forall s1 text,
            generate_tree_markdown s = (s1, Ok text) ->
            writable (tree_file s) = true ->
            data (tree_file s') = Some text).
Proof.
  intros s. pose proof (generate_tree_markdown_keeps s) as Hframe.
  unfold update_tree_structure, try_except, bind.
  destruct (generate_tree_markdown s) as [s1 [text|e]]; simpl in Hframe.
  - assert (Hfile : tree_file s1 = tree_file s)
      by (unfold outside_logs in Hframe; congruence).
    unfold write_tree_file. destruct (writable (tree_file s1)) eqn:W.
    + eexists. split; [reflexivity|]. split.
      * intros ? ? [=].
      * intros ? ? [= <- <-] _. reflexivity.
    + eexists. split; [reflexivity|]. split.
      * intros ? ? [=].
      * intros ? ? _ W'. rewrite <- Hfile in W'. congruence.
  - eexists. split; [reflexivity|]. split.
    + intros ? ? [= <- <-]. split.
      * simpl. unfold outside_logs in Hframe. congruence.
      * simpl. unfold update_failed. now rewrite <- app_assoc.
    + intros ? ? [=].
Qed.

Lemma C9_update_never_raises_witness :
  exists s',
    update_tree_structure locked_sink = (s', Ok tt)
    /\ tree_file s' = tree_file locked_sink.
Proof.
  destruct (C9_update_never_raises locked_sink) as (s' & E & H & _).
  exists s'. split; [exact E|].
  eapply H. vm_compute. reflexivity.
Defined.

(** ** Failures of the log files *)

Section Sink.








End Sink.





(** ** Starting twice *)

(** C8: [start_watching] on a manager that is watching returns normally
    after printing the two warning lines and changes nothing else: the
    observer and the number of observers created are what they were, the flag
    stays set, and neither the output file nor the log files are written. *)
Theorem C8_start_while_watching :
  forall s : state,
    is_watching s = true ->
    start_watching s = (set_stdout (stdout s ++ already_watching)%list s, Ok tt)
    /\ let s' := fst (start_watching s) in
       observer s' = observer s
       /\ observers_created s' = observers_created s
       /\ is_watching s' = true
       /\ tree_file s' = tree_file s
       /\ json_log s' = json_log s
       /\ markdown_log s' = markdown_log s
       /\ timers s' = timers s.
Proof.
  intros s Hw.
  assert (E : start_watching s
              = (set_stdout (stdout s ++ already_watching)%list s, Ok tt)).
  { cbv beta iota zeta delta [start_watching bind get].
    rewrite Hw. cbv beta iota zeta delta [print modify].
    simpl. unfold already_watching. now rewrite <- app_assoc. }
  split; [exact E|]. rewrite E. simpl. repeat split. exact Hw.
Qed.

Lemma C8_start_while_watching_witness :
  is_watching watching = true
  /\ start_watching watching
     = (set_stdout (stdout watching ++ already_watching)%list watching, Ok tt).
Proof.
  split; [reflexivity|].
  apply (C8_start_while_watching watching). reflexivity.
Defined.

(** ** Stopping with a regeneration pending *)

Section Stop.

Lemma log_activity_keeps_threads command status summary duration error :
  keeps threads (log_activity command status summary duration error).
Proof.
  apply (keeps_map outside_logs
           (fun '(fs, _, c, _, ts, _, vp, _, _) => (ts, c, fs, vp))).
  apply log_activity_keeps.
Qed.

Lemma stop_watching_keeps_threads : keeps threads stop_watching.
Proof.
  unfold stop_watching.
  keeps_monadic ltac:(apply log_activity_keeps_threads).
Qed.

Lemma log_activity_keeps_session command status summary duration error :
  keeps session (log_activity command status summary duration error).
Proof.
  apply (keeps_map outside_logs
           (fun '(_, _, _, _, _, _, _, o, w) => (w, o))).
  apply log_activity_keeps.
Qed.

Lemma stop_watching_session s o :
  is_watching s = true ->
  observer s = Some o ->
  session (fst (stop_watching s)) = (false, Some (set_alive false o)).
Proof.
  intros Hw Ho.
  cbv beta iota zeta delta [stop_watching bind get try_except].
  rewrite Hw, Ho. cbv beta iota zeta delta [modify print].
  match goal with
  | |- context [log_activity ?c ?st ?su ?d ?e ?s1] =>
      pose proof (log_activity_keeps_session c st su d e s1) as H1;
      destruct (log_activity c st su d e s1) as [s2 [[]|x]]
  end; unfold session in *; cbn in H1; [exact H1|].
  match goal with
  | |- context [log_activity ?c ?st ?su ?d ?e ?s3] =>
      pose proof (log_activity_keeps_session c st su d e s3) as H2;
      destruct (log_activity c st su d e s3) as [s4 r]
  end; unfold session in H2; cbn in H2.
  cbn [fst]. rewrite H2. exact H1.
Qed.

Lemma existsb_Qeq t l : In t l -> existsb (fun x => Qeq_bool x t) l = true.
Proof.
  intros H. apply existsb_exists. exists t. split; [exact H|apply Qeq_bool_refl].
Qed.

End Stop.

(** C7, as stated, fails: a regeneration scheduled for time 15 is still
    pending after [stop_watching] has returned at time 13, and it runs at
    time 15, on a manager that no longer watches, and rewrites the output
    file. *)
Lemma C7_pending_regeneration_survives_stop :
  timers with_pending = [15]
  /\ is_watching with_pending = true
  /\ snd (stop_watching with_pending) = Ok tt
  /\ let stopped := fst (stop_watching with_pending) in
     is_watching stopped = false
     /\ timers stopped = [15]
     /\ exists after,
          fire_timer 15 (advance 15 stopped) = Some (after, Ok tt)
          /\ is_watching after = false
          /\ stdout after = (stdout stopped ++ regenerated)%list.
Proof.
  vm_compute. repeat split. eexists. repeat split.
Qed.

(** C7, amended: [stop_watching] on an active session stops and joins the
    observer, so that events delivered afterwards are not handled, and clears
    the flag; it cancels nothing: the regenerations pending when it is called
    are the ones pending when it returns, and each still runs
    [update_tree_structure] when its time has come. *)
Theorem C7_stop_releases_listener_only :
  forall (s : state) (o : Observer),
    is_watching s = true ->
    observer s = Some o ->
    let stopped := fst (stop_watching s) in
    is_watching stopped = false
    /\ observer stopped = Some (set_alive false o)
    /\ (forall ev, deliver ev stopped = (stopped, Ok tt))
    /\ timers stopped = timers s
    /\ (forall t, In t (timers s) ->
          fire_timer t (advance t stopped)
          = Some (update_tree_structure
                    (set_timers (remove_first t (timers s)) (advance t stopped)))).
Proof.
  intros s o Hw Ho stopped.
  pose proof (stop_watching_session s o Hw Ho) as Hs.
  pose proof (stop_watching_keeps_threads s) as Ht.
  fold stopped in Hs, Ht. unfold session in Hs. unfold threads in Ht.
  injection Hs as Hflag Hobs. injection Ht as Htimers _ _ _.
  split; [exact Hflag|]. split; [exact Hobs|]. split; [|split; [exact Htimers|]].
  - intros ev. unfold deliver. now rewrite Hobs.
  - intros t Hin. unfold fire_timer, advance. cbn [timers clock set_clock].
    rewrite Htimers, (existsb_Qeq t (timers s) Hin).
    assert (Hle : Qle_bool t t = true) by (apply Qle_bool_iff; lra).
    now rewrite Hle.
Qed.

Lemma C7_stop_releases_listener_only_witness :
  let stopped := fst (stop_watching with_pending) in
  is_watching stopped = false /\ timers stopped = timers with_pending.
Proof.
  destruct (C7_stop_releases_listener_only with_pending
              {| obs_id := 0; obs_alive := true; obs_handler := new_handler 13 |}
              eq_refl eq_refl) as (H1 & _ & _ & H2 & _).
  split; [exact H1|exact H2].
Defined.

(** * Further properties of the code *)

(** ** The JSON log *)

Section JsonLog.

Lemma keep_last_100_split (logs : list LogEntry) :
  exists dropped,
    logs = (dropped ++ keep_last_100 logs)%list
    /\ List.length (keep_last_100 logs) = Nat.min 100 (List.length logs)
    /\ ((List.length logs <= 100)%nat -> dropped = []).
Proof.
  unfold keep_last_100.
  destruct (100 <? List.length logs)%nat eqn:E.
  - apply Nat.ltb_lt in E.
    exists (firstn (List.length logs - 100) logs). split; [|split].
    + now rewrite firstn_skipn.
    + rewrite length_skipn. lia.
    + lia.
  - apply Nat.ltb_ge in E. exists []. repeat split. lia.
Qed.

Lemma keep_last_100_last (logs : list LogEntry) e :
  exists front, keep_last_100 (logs ++ [e])%list = (front ++ [e])%list.
Proof.
  unfold keep_last_100. destruct (100 <? _)%nat eqn:E; [|now exists logs].
  apply Nat.ltb_lt in E. rewrite length_app in *. simpl in *.
  rewrite skipn_app.
  replace (List.length logs + 1 - 100 - List.length logs)%nat with 0%nat by lia.
  simpl. now eexists.
Qed.

Lemma _append_json_log_result log_entry s :
  writable (json_log s) = true ->
  _append_json_log log_entry s
  = (set_json_log
       {| data := Some (JsonLogs (keep_last_100
                                    (match json_entries s with
                                     | Some logs => logs
                                     | None => []
                                     end ++ [log_entry])%list));
          readable := readable (json_log s);
          writable := true |} s, Ok tt).
Proof.
  intros H. unfold json_entries.
  cbv beta iota zeta delta [_append_json_log bind get try_except load_json_log
                            dump_json_log ret file_exists].
  destruct (data (json_log s)) as [[logs|]|] eqn:D;
    destruct (readable (json_log s)) eqn:R;
    repeat (cbv beta iota; rewrite ?D, ?R, ?H); reflexivity.
Qed.

End JsonLog.

(** X1: appending to a JSON log that parses keeps the newest entries, at
    most 100 of them: what is written is the old entries followed by the new
    one, less a front part that is dropped only when the old log already held
    100 entries or more. *)
Theorem json_log_keeps_newest_100 :
  forall (s : state) (e : LogEntry) (old : list LogEntry),
    json_entries s = Some old ->
    writable (json_log s) = true ->
    exists kept dropped front,
      _append_json_log e s
      = (set_json_log {| data := Some (JsonLogs kept);
                         readable := readable (json_log s);
                         writable := true |} s, Ok tt)
      /\ (old ++ [e])%list = (dropped ++ kept)%list
      /\ kept = (front ++ [e])%list
      /\ List.length kept = Nat.min 100 (S (List.length old))
      /\ ((List.length old < 100)%nat -> dropped = []).
Proof.
  intros s e old Hold Hw.
  destruct (keep_last_100_split (old ++ [e])%list) as (dropped & Hsplit & Hlen & Hnone).
  destruct (keep_last_100_last old e) as (front & Hfront).
  exists (keep_last_100 (old ++ [e])%list), dropped, front.
  rewrite (_append_json_log_result e s Hw), Hold.
  split; [reflexivity|]. split; [exact Hsplit|]. split; [exact Hfront|]. split.
  - rewrite Hlen, length_app. cbn [List.length].
    now replace (List.length old + 1)%nat with (S (List.length old)) by lia.
  - intros Hlt. apply Hnone. rewrite length_app. cbn [List.length]. lia.
Qed.

Lemma json_log_keeps_newest_100_witness :
  exists kept dropped front : list LogEntry,
    _append_json_log (sample_entry "organize" "success") logged_twice
    = (set_json_log {| data := Some (JsonLogs kept);
                       readable := readable (json_log logged_twice);
                       writable := true |} logged_twice, Ok tt)
    /\ kept = (front ++ [sample_entry "organize" "success"])%list
    /\ List.length kept = 3%nat /\ dropped = [].
Proof.
  destruct (json_log_keeps_newest_100 logged_twice
              (sample_entry "organize" "success") _ eq_refl eq_refl)
    as (kept & dropped & front & E & _ & Hf & Hl & Hd).
  exists kept, dropped, front. split; [exact E|]. split; [exact Hf|].
  split; [exact Hl|]. apply Hd. simpl. lia.
Defined.

(** X2: a JSON log that is missing, cannot be read or does not parse is
    replaced: after the append the file holds the new entry alone. *)
Theorem json_log_restarts_when_unreadable :
  forall (s : state) (e : LogEntry),
    json_entries s = None ->
    writable (json_log s) = true ->
    _append_json_log e s
    = (set_json_log {| data := Some (JsonLogs [e]);
                       readable := readable (json_log s);
                       writable := true |} s, Ok tt).
Proof.
  intros s e Hnone Hw. now rewrite (_append_json_log_result e s Hw), Hnone.
Qed.

Lemma json_log_restarts_when_unreadable_witness :
  data (json_log (fst (_append_json_log
                         (entry_at garbled_sink "backup" "success" [] (Some 1) None)
                         garbled_sink)))
  = Some (JsonLogs [entry_at garbled_sink "backup" "success" [] (Some 1) None]).
Proof.
  rewrite (json_log_restarts_when_unreadable garbled_sink _ eq_refl eq_refl).
  reflexivity.
Defined.

(** ** The statistics of the log *)

Section Statistics.







End Statistics.



(** X4: when the JSON log is missing, [_calculate_statistics] returns the
    zero statistics and prints nothing; when it is there but cannot be read
    or does not parse, it prints one line for the exception and returns the
    zero statistics.  It never raises. *)
Theorem statistics_of_unreadable_log :
  forall s : state,
    json_entries s = None ->
    (file_exists (json_log s) = false
     /\ _calculate_statistics s = (s, Ok statistics_zero))
    \/ (file_exists (json_log s) = true
        /\ exists e,
             _calculate_statistics s
             = (set_stdout (stdout s ++ [statistics_failed e])%list s, Ok statistics_zero)
             /\ (e = PermissionError JSON_LOG \/ exists msg, e = JSONDecodeError msg)).
Proof.
  intros s. unfold json_entries.
  cbv beta iota zeta delta [_calculate_statistics bind get try_except
                            load_json_log ret print modify file_exists].
  destruct (data (json_log s)) as [[logs|]|] eqn:D;
    destruct (readable (json_log s)) eqn:R; intros H; try discriminate;
    repeat (cbv beta iota; rewrite ?D, ?R);
    first [ left; split; reflexivity
          | right; split; [reflexivity|]; eexists; split; [reflexivity|];
            first [left; reflexivity | right; eexists; reflexivity] ].
Qed.

Lemma statistics_of_unreadable_log_witness :
  exists e,
    _calculate_statistics garbled_sink
    = (set_stdout (stdout garbled_sink ++ [statistics_failed e])%list garbled_sink,
       Ok statistics_zero).
Proof.
  destruct (statistics_of_unreadable_log garbled_sink eq_refl)
    as [[Hf _]|(_ & e & E & _)]; [discriminate Hf|].
  exists e. exact E.
Defined.

(** ** Recording an activity *)

Section Recording.


Lemma json_entries_set_json_log s logs r :
  json_entries (set_json_log {| data := Some (JsonLogs logs); readable := r;
                                writable := true |} s)
  = if r then Some logs else None.
Proof. reflexivity. Qed.

End Recording.



(** X6: recording an activity without a duration, which is what the default
    of the parameter gives, raises [TypeError] when the markdown entry is
    formatted: by then the entry is in the JSON log, and the markdown log is
    as it was. *)
Theorem log_activity_without_duration_raises :
  forall (s : state) (command status : string) (summary : list (string * string))
         (error : option string),
    writable (json_log s) = true ->
    let e := entry_at s command status summary None error in
    let s' := fst (log_activity command status summary None error s) in
    (exists msg, snd (log_activity command status summary None error s)
                 = Raise (TypeError msg))
    /\ data (json_log s') = Some (JsonLogs (keep_last_100 (logged s ++ [e])%list))
    /\ markdown_log s' = markdown_log s.
Proof.
  intros s command status summary error Hjw e s'.
  assert (E : exists msg,
             log_activity command status summary None error s
             = (set_json_log
                  {| data := Some (JsonLogs (keep_last_100 (logged s ++ [e])%list));
                     readable := readable (json_log s); writable := true |} s,
                Raise (TypeError msg))).
  { cbv beta iota zeta delta [log_activity bind get].
    fold (entry_at s command status summary None error). fold e.
    rewrite (_append_json_log_result e s Hjw). fold (logged s).
    eexists. reflexivity. }
  destruct E as (msg & E). unfold s'. rewrite E. cbn [fst snd].
  split; [now exists msg|]. split; reflexivity.
Qed.

Lemma log_activity_without_duration_raises_witness :
  exists msg, snd (log_activity "backup" "success" [] None None healthy)
              = Raise (TypeError msg).
Proof.
  apply (log_activity_without_duration_raises healthy "backup" "success" [] None).
  reflexivity.
Defined.

(** ** Reading the log back *)

Section Recent.

Lemma get_recent_activities_result limit s :
  get_recent_activities limit s
  = (s, Ok match logged s with
           | [] => []
           | logs => slice_from (- limit) logs
           end).
Proof.
  unfold logged, json_entries.
  cbv beta iota zeta delta [get_recent_activities bind get try_except
                            load_json_log ret file_exists].
  destruct (data (json_log s)) as [[logs|]|] eqn:D;
    destruct (readable (json_log s)) eqn:R;
    repeat (cbv beta iota zeta delta [negb]; rewrite ?D, ?R);
    try reflexivity.
  now destruct logs.
Qed.

Lemma slice_from_last {A : Type} (k : nat) (l : list A) :
  (0 < k)%nat ->
  slice_from (- Z.of_nat k) l = skipn (List.length l - k) l.
Proof.
  intros Hk. unfold slice_from.
  destruct (- Z.of_nat k <? 0)%Z eqn:E; [|apply Z.ltb_ge in E; lia].
  f_equal. lia.
Qed.

Lemma slice_from_front {A : Type} (k : nat) (l : list A) :
  slice_from (Z.of_nat k) l = skipn k l.
Proof.
  unfold slice_from.
  destruct (Z.of_nat k <? 0)%Z eqn:E; [apply Z.ltb_lt in E; lia|].
  destruct (Nat.le_gt_cases k (List.length l)) as [Hle|Hgt].
  - f_equal. lia.
  - replace (Z.to_nat (Z.min (Z.of_nat k) (Z.of_nat (List.length l))))
      with (List.length l) by lia.
    rewrite !skipn_all2 by lia. reflexivity.
Qed.

End Recent.

(** X7: for a positive limit, [get_recent_activities] returns the last
    [limit] entries of the log, or all of them when there are fewer, in the
    order of the log; it returns no entry when the log is missing, cannot be
    read or does not parse.  It changes nothing and never raises. *)
Theorem recent_activities_are_the_last :
  forall (s : state) (limit : Z),
    (0 < limit)%Z ->
    exists recent older,
      get_recent_activities limit s = (s, Ok recent)
      /\ logged s = (older ++ recent)%list
      /\ List.length recent = Nat.min (Z.to_nat limit) (List.length (logged s)).
Proof.
  intros s limit Hpos. rewrite get_recent_activities_result.
  replace limit with (Z.of_nat (Z.to_nat limit)) by lia.
  rewrite Nat2Z.id.
  set (k := Z.to_nat limit). assert (Hk : (0 < k)%nat) by lia.
  exists (skipn (List.length (logged s) - k) (logged s)),
         (firstn (List.length (logged s) - k) (logged s)).
  split; [|split].
  - destruct (logged s) as [|l logs] eqn:L; [now destruct k|].
    now rewrite slice_from_last.
  - now rewrite firstn_skipn.
  - rewrite length_skipn. lia.
Qed.

Lemma recent_activities_are_the_last_witness :
  exists recent older,
    get_recent_activities 1 logged_twice = (logged_twice, Ok recent)
    /\ logged logged_twice = (older ++ recent)%list
    /\ List.length recent = 1%nat.
Proof.
  destruct (recent_activities_are_the_last logged_twice 1 eq_refl)
    as (recent & older & E & Hs & Hl).
  exists recent, older. split; [exact E|]. split; [exact Hs|exact Hl].
Defined.

(** X8: a limit of zero does not give an empty answer: [logs[-0:]] is the
    whole log.  A negative limit drops that many of the oldest entries. *)
Theorem recent_activities_with_no_limit :
  forall (s : state) (limit : Z),
    (limit <= 0)%Z ->
    get_recent_activities limit s = (s, Ok (skipn (Z.to_nat (- limit)) (logged s)))
    /\ (limit = 0%Z -> get_recent_activities limit s = (s, Ok (logged s))).
Proof.
  intros s limit Hle.
  assert (E : get_recent_activities limit s
              = (s, Ok (skipn (Z.to_nat (- limit)) (logged s)))).
  { rewrite get_recent_activities_result.
    destruct (logged s) as [|l logs]; [now rewrite skipn_nil|].
    replace (- limit)%Z with (Z.of_nat (Z.to_nat (- limit))) at 1 by lia.
    now rewrite slice_from_front. }
  split; [exact E|]. intros ->. exact E.
Qed.

Lemma recent_activities_with_no_limit_witness :
  get_recent_activities 0 logged_twice = (logged_twice, Ok (logged logged_twice)).
Proof.
  apply (recent_activities_with_no_limit logged_twice 0); reflexivity.
Defined.

(** ** What is hidden *)

Section Hidden.

Lemma should_ignore_below p rest :
  _should_ignore p = true -> _should_ignore (p ++ rest)%list = true.
Proof.
  unfold _should_ignore. intros H. rewrite existsb_app, H. reflexivity.
Qed.

End Hidden.

(** X9: a path with an ignored part hides everything below it: every path
    that extends it is ignored too, is counted by no counter and is not among
    the entries the renderer emits lines for. *)
Theorem ignored_directory_hides_its_content :
  forall (fs : filesystem) (p rest : path) (st : stats) (listed : list path),
    _should_ignore p = true ->
    _should_ignore (p ++ rest)%list = true
    /\ count_item fs st (p ++ rest)%list = st
    /\ ~ In (p ++ rest)%list (all_items fs listed).
Proof.
  intros fs p rest st listed H.
  pose proof (should_ignore_below p rest H) as Hb.
  split; [exact Hb|]. split.
  - unfold count_item. now rewrite Hb.
  - unfold all_items. intros Hin. apply in_app_or in Hin as [Hin|Hin].
    + apply tree_directories_spec in Hin as (_ & Hk & _). congruence.
    + apply tree_files_spec in Hin as (_ & Hk & _). congruence.
Qed.

Lemma ignored_directory_hides_its_content_witness :
  count_item (scenario_fs ["/"; "vault"]) stats_zero
    (["/"; "vault"; ".obsidian"] ++ ["config.json"])%list = stats_zero.
Proof.
  apply (ignored_directory_hides_its_content (scenario_fs ["/"; "vault"])
           ["/"; "vault"; ".obsidian"] ["config.json"] stats_zero []).
  reflexivity.
Defined.

(** ** The shape of the lines *)

Section Shape.

Lemma string_append_assoc (a b c : string) : (a ++ b) ++ c = a ++ (b ++ c).
Proof. induction a as [|x a IH]; simpl; [reflexivity|now rewrite IH]. Qed.

End Shape.

(** X10: every line [_generate_tree_structure] returns for a directory
    begins with the prefix it was given, and goes on with a branch marker or,
    for a line of a deeper level, with a continuation of four columns. *)
Theorem lines_begin_with_the_prefix :
  forall (fs : filesystem) (fuel : nat) (directory : path) (prefix : string)
         (is_last : bool) (line : string),
    In line (_generate_tree_structure fs fuel directory prefix is_last) ->
    exists rest, line = prefix ++ rest /\ branch_or_continuation rest.
Proof.
  intros fs fuel. induction fuel as [|fuel IH];
    intros directory prefix is_last line Hin; [contradiction|].
  cbn [_generate_tree_structure] in Hin.
  destruct (iterdir fs directory) as [listed|e].
  - apply in_flat_map in Hin as ([i item] & _ & Hin).
    unfold render_item in Hin. destruct Hin as [<-|Hin].
    + eexists. split; [reflexivity|].
      exists (item_name fs item). unfold current_prefix.
      destruct (Nat.eqb i _); auto.
    + destruct (is_dir fs item); [|contradiction].
      apply IH in Hin as (rest & -> & _).
      unfold next_prefix. destruct (Nat.eqb i _);
        rewrite string_append_assoc; eexists; (split; [reflexivity|]);
        exists rest; auto.
  - assert (Hm : exists tail, line = prefix ++ "├── " ++ tail).
    { unfold PERMISSION_MARKER, error_marker in Hin.
      destruct e; destruct Hin as [<-|[]]; eexists; reflexivity. }
    destruct Hm as (tail & ->). eexists. split; [reflexivity|].
    exists tail. auto.
Qed.

Lemma lines_begin_with_the_prefix_witness :
  exists rest, "│   └── 📝 old.md" = "│   " ++ rest /\ branch_or_continuation rest.
Proof.
  apply (lines_begin_with_the_prefix (scenario_fs ["/"; "vault"]) 1
           ["/"; "vault"; "archive"] "│   " false).
  simpl. tauto.
Defined.

(** ** The spacing of regenerations *)

(** X11: whatever events are delivered and whenever, the regenerations a
    handler schedules are spaced: each is due more than the quiet window
    after the one before it, and the first more than the quiet window after
    the time the handler last recorded plus the window.  The window itself
    never changes. *)
Theorem regenerations_are_spaced :
  forall (h : handler) (evs : list (Q * event)),
    spaced (update_delay h) (last_update h + update_delay h) (snd (run_events h evs))
    /\ update_delay (fst (run_events h evs)) = update_delay h.
Proof.
  intros h evs. revert h.
  induction evs as [|[t ev] rest IH]; intros h; [now split|].
  cbn [run_events]. unfold on_any_event.
  destruct (path_filtered (src_path ev)).
  { specialize (IH h). destruct (run_events h rest). exact IH. }
  destruct (qualifies ev).
  2:{ specialize (IH h). destruct (run_events h rest). exact IH. }
  destruct (Qle_bool (t - last_update h) (update_delay h)) eqn:G; cbn [negb].
  { specialize (IH h). destruct (run_events h rest). exact IH. }
  specialize (IH {| last_update := t; update_delay := update_delay h |}).
  destruct (run_events _ rest) as [h' later]. cbn [fst snd] in *.
  destruct IH as [IH Hd]. split; [|exact Hd]. split; [|exact IH].
  assert (Hgate : ~ t - last_update h <= update_delay h).
  { intros Hle. apply Qle_bool_iff in Hle. congruence. }
  apply Qnot_le_lt in Hgate. lra.
Qed.

(** ** Starting and stopping *)

Section Watch.






Lemma stop_watching_idle s :
  is_watching s = false \/ observer s = None ->
  stop_watching s = (set_stdout (stdout s ++ not_watching)%list s, Ok tt).
Proof.
  intros H. cbv beta iota zeta delta [stop_watching bind get print modify].
  assert (E : forall s0, set_stdout
                (stdout (set_stdout (stdout s0 ++ ["⚠️ 감시 중이 아닙니다."])%list s0)
                 ++ ["⚠️ Not currently watching."])%list
                (set_stdout (stdout s0 ++ ["⚠️ 감시 중이 아닙니다."])%list s0)
              = set_stdout (stdout s0 ++ not_watching)%list s0).
  { intros s0. unfold set_stdout, not_watching. cbn. now rewrite <- app_assoc. }
  destruct (is_watching s); destruct (observer s); destruct H as [H|H];
    try discriminate; now rewrite <- E.
Qed.

End Watch.

(** X12: [stop_watching] on a manager that is not watching, or has no
    observer, prints the two warning lines and changes nothing else, and it
    logs nothing; so a second [stop_watching] in a row is always such a
    warning, whatever the first one met. *)
Theorem stop_when_idle_only_warns :
  forall s : state,
    (is_watching s = false \/ observer s = None ->
     stop_watching s = (set_stdout (stdout s ++ not_watching)%list s, Ok tt))
    /\ let s1 := fst (stop_watching s) in
       stop_watching s1 = (set_stdout (stdout s1 ++ not_watching)%list s1, Ok tt).
Proof.
  intros s. split; [apply stop_watching_idle|].
  intros s1. apply stop_watching_idle.
  destruct (is_watching s) eqn:Hw.
  - destruct (observer s) as [o|] eqn:Ho.
    + left. pose proof (stop_watching_session s o Hw Ho) as Hs.
      unfold session in Hs. fold s1 in Hs. congruence.
    + right. unfold s1. rewrite stop_watching_idle by now right. exact Ho.
  - left. unfold s1. rewrite stop_watching_idle by now left. exact Hw.
Qed.

Lemma stop_when_idle_only_warns_witness :
  stop_watching healthy = (set_stdout (stdout healthy ++ not_watching)%list healthy, Ok tt).
Proof.
  apply (stop_when_idle_only_warns healthy). left. reflexivity.
Defined.





(** ** The lines and the counters *)

Section Sums.







End Sums.

Section Lines.

Variable fs : filesystem.










End Lines.

Section LineCount.

Variable fs : filesystem.




End LineCount.

Section LinesAndCounters.

Variable fs : filesystem.




End LinesAndCounters.



(** ** A markdown log that cannot be written *)

Section MarkdownLocked.

Lemma log_activity_markdown_locked command status summary d error s :
  writable (json_log s) = true ->
  writable (markdown_log s) = false ->
  log_activity command status summary (Some d) error s
  = (set_json_log
       {| data := Some (JsonLogs (keep_last_100
                                    (logged s
                                     ++ [entry_at s command status summary (Some d) error])%list));
          readable := readable (json_log s);
          writable := true |} s,
     Raise (PermissionError MARKDOWN_LOG)).
Proof.
  intros Hjw Hmw.
  cbv beta iota zeta delta [log_activity bind get].
  fold (entry_at s command status summary (Some d) error).
  rewrite (_append_json_log_result _ s Hjw). fold (logged s).
  cbv beta iota zeta delta [_append_markdown_log append_markdown_log duration entry_at].
  cbn [markdown_log set_json_log]. now rewrite Hmw.
Qed.

Lemma logged_set_json_log s logs :
  readable (json_log s) = true ->
  logged (set_json_log {| data := Some (JsonLogs logs);
                          readable := readable (json_log s);
                          writable := true |} s) = logs.
Proof.
  intros Hr. unfold logged, json_entries.
  cbn [json_log set_json_log data readable]. now rewrite Hr.
Qed.

End MarkdownLocked.

(** X16: when the JSON log can be read and written and the markdown log
    cannot be written, [generate_tree_markdown] raises the [PermissionError]
    of the markdown log, and by then the JSON log has received two entries
    for the one call: a [generate_tree] entry with status [success], then a
    [generate_tree] entry with status [error] that carries the text of the
    exception. *)
Theorem generation_with_locked_markdown_log :
  forall s : state,
    writable (json_log s) = true ->
    readable (json_log s) = true ->
    writable (markdown_log s) = false ->
    exists first second : LogEntry,
      snd (generate_tree_markdown s) = Raise (PermissionError MARKDOWN_LOG)
      /\ logged (fst (generate_tree_markdown s))
         = keep_last_100 (keep_last_100 (logged s ++ [first]) ++ [second])%list
      /\ command first = "generate_tree" /\ status first = "success"
      /\ command second = "generate_tree" /\ status second = "error"
      /\ error second = Some (str_exn (PermissionError MARKDOWN_LOG)).
Proof.
  intros s Hjw Hjr Hmw.
  cbv beta iota zeta delta [generate_tree_markdown bind get try_except].
  rewrite (log_activity_markdown_locked _ _ _ _ _ s Hjw Hmw).
  cbv beta iota.
  rewrite log_activity_markdown_locked by (first [reflexivity | exact Hmw]).
  cbv beta iota zeta delta [raise]. cbn [fst snd].
  eexists (entry_at _ _ _ _ _ _), (entry_at _ _ _ _ _ _).
  split; [reflexivity|]. split.
  - rewrite logged_set_json_log by exact Hjr.
    rewrite logged_set_json_log by exact Hjr. reflexivity.
  - repeat split; reflexivity.
Qed.

Lemma generation_with_locked_markdown_log_witness :
  exists first second : LogEntry,
    snd (generate_tree_markdown (set_markdown_log locked_file logged_twice))
    = Raise (PermissionError MARKDOWN_LOG)
    /\ logged (fst (generate_tree_markdown (set_markdown_log locked_file logged_twice)))
       = keep_last_100
           (keep_last_100 (logged (set_markdown_log locked_file logged_twice) ++ [first])
            ++ [second])%list
    /\ command first = "generate_tree" /\ status first = "success"
    /\ command second = "generate_tree" /\ status second = "error"
    /\ error second = Some (str_exn (PermissionError MARKDOWN_LOG)).
Proof.
  apply (generation_with_locked_markdown_log (set_markdown_log locked_file logged_twice));
    reflexivity.
Defined.
